(** * The minikube cluster-provider adapter

    A shallow embedding of
    [src/components/clusterprovider/minikube/minikube.ts]: the adapter that
    shells out to the [minikube] binary to start, stop and query a local
    cluster, and reports through the editor's status bar and notifications.

    JavaScript strings are sequences of UTF-16 code units; the values that
    [JSON.parse] builds are a small data type; the asynchronous functions are
    computations in a state-and-rejection monad over a [World] that holds the
    adapter's [Context], the module-level status-bar item and how often one
    was created, the log of externally visible effects and the continuations
    that were attached to a promise without being awaited. *)

From Stdlib Require Import List String Ascii NArith ZArith Bool Arith Lia DecimalString.
Import ListNotations.

Local Open Scope list_scope.
Set Warnings "-register-all".

(** ** JavaScript strings *)

Definition code_unit := N.
Definition jsstring := list code_unit.

(** A literal of the source, written in ASCII. *)
Definition js (s : string) : jsstring :=
  map N_of_ascii (list_ascii_of_string s).

(** A literal between double quotes, as it occurs inside another literal. *)
Definition quoted (s : jsstring) : jsstring := (34%N :: s) ++ [34%N].

Fixpoint jsstring_eqb (a b : jsstring) : bool :=
  match a, b with
  | [], [] => true
  | x :: a', y :: b' => N.eqb x y && jsstring_eqb a' b'
  | _, _ => false
  end.

(** ** JavaScript values, as far as [JSON.parse] and indexing produce them *)

Inductive JSValue : Type :=
| JSUndefined
| JSNull
| JSBoolean (b : bool)
| JSNumber (literal : jsstring)   (* the numeric value is never inspected *)
| JSString (s : jsstring)
| JSArray (elements : list JSValue)
| JSObject (members : list (jsstring * JSValue)).

Inductive JSError : Type :=
| Error (message : jsstring)      (* [new Error(message)] *)
| SyntaxError                     (* thrown by [JSON.parse] *)
| TypeError                       (* reading a property of [null] *)
| Reason (shown : jsstring).      (* what a rejected [shell.exec] carries,
                                     named by its rendering in a template *)

(** ** [JSON.parse] *)

Module JSON.

Definition is_ws (c : code_unit) : bool :=
  (c =? 9)%N || (c =? 10)%N || (c =? 13)%N || (c =? 32)%N.

Fixpoint skip_ws (s : jsstring) : jsstring :=
  match s with
  | c :: s' => if is_ws c then skip_ws s' else s
  | [] => []
  end.

Definition is_digit (c : code_unit) : bool := (48 <=? c)%N && (c <=? 57)%N.

Definition hex_digit (c : code_unit) : option N :=
  if is_digit c then Some (c - 48)%N
  else if (65 <=? c)%N && (c <=? 70)%N then Some (c - 55)%N
  else if (97 <=? c)%N && (c <=? 102)%N then Some (c - 87)%N
  else None.

Definition hex4 (a b c d : code_unit) : option code_unit :=
  match hex_digit a, hex_digit b, hex_digit c, hex_digit d with
  | Some x, Some y, Some z, Some t => Some (((x * 16 + y) * 16 + z) * 16 + t)%N
  | _, _, _, _ => None
  end.

(** The single-character escapes: quote, backslash, slash, b, f, n, r, t. *)
Definition escape (c : code_unit) : option code_unit :=
  if (c =? 34)%N then Some 34%N
  else if (c =? 92)%N then Some 92%N
  else if (c =? 47)%N then Some 47%N
  else if (c =? 98)%N then Some 8%N
  else if (c =? 102)%N then Some 12%N
  else if (c =? 110)%N then Some 10%N
  else if (c =? 114)%N then Some 13%N
  else if (c =? 116)%N then Some 9%N
  else None.

(** The characters of a string after its opening quote, up to and including
    the closing quote; [acc] holds the decoded code units, last first. *)
Fixpoint string_chars (s acc : jsstring) : option (jsstring * jsstring) :=
  match s with
  | [] => None
  | c :: s1 =>
      if (c =? 34)%N then Some (rev acc, s1)
      else if (c =? 92)%N then
        match s1 with
        | [] => None
        | e :: s2 =>
            if (e =? 117)%N then
              match s2 with
              | h1 :: h2 :: h3 :: h4 :: s3 =>
                  match hex4 h1 h2 h3 h4 with
                  | Some u => string_chars s3 (u :: acc)
                  | None => None
                  end
              | _ => None
              end
            else
              match escape e with
              | Some u => string_chars s2 (u :: acc)
              | None => None
              end
        end
      else if (c <? 32)%N then None
      else string_chars s1 (c :: acc)
  end.

Fixpoint digits (s acc : jsstring) : jsstring * jsstring :=
  match s with
  | c :: s' => if is_digit c then digits s' (c :: acc) else (acc, s)
  | [] => (acc, [])
  end.

(** One or more digits pushed on [acc]. *)
Definition digits1 (s acc : jsstring) : option (jsstring * jsstring) :=
  match s with
  | c :: s' => if is_digit c then Some (digits s' (c :: acc)) else None
  | [] => None
  end.

Definition int_part (s acc : jsstring) : option (jsstring * jsstring) :=
  match s with
  | c :: s' =>
      if (c =? 48)%N then Some (c :: acc, s')
      else if is_digit c then Some (digits s' (c :: acc))
      else None
  | [] => None
  end.

Definition frac_part (s acc : jsstring) : option (jsstring * jsstring) :=
  match s with
  | c :: s' => if (c =? 46)%N then digits1 s' (c :: acc) else Some (acc, s)
  | [] => Some (acc, [])
  end.

Definition exp_part (s acc : jsstring) : option (jsstring * jsstring) :=
  match s with
  | c :: s' =>
      if (c =? 101)%N || (c =? 69)%N then
        match s' with
        | g :: s'' =>
            if (g =? 43)%N || (g =? 45)%N then digits1 s'' (g :: c :: acc)
            else digits1 s' (c :: acc)
        | [] => None
        end
      else Some (acc, s)
  | [] => Some (acc, [])
  end.

(** A number: optional minus, integer part, optional fraction and exponent. *)
Definition number (s : jsstring) : option (jsstring * jsstring) :=
  let '(acc0, s0) :=
    match s with
    | c :: s' => if (c =? 45)%N then ([c], s') else ([], s)
    | [] => ([], [])
    end in
  match int_part s0 acc0 with
  | None => None
  | Some (acc1, s1) =>
      match frac_part s1 acc1 with
      | None => None
      | Some (acc2, s2) =>
          match exp_part s2 acc2 with
          | None => None
          | Some (acc3, s3) => Some (rev acc3, s3)
          end
      end
  end.

(** [s] starts with the keyword [kw]: what follows it. *)
Fixpoint keyword (kw s : jsstring) : option jsstring :=
  match kw, s with
  | [], _ => Some s
  | k :: kw', c :: s' => if (k =? c)%N then keyword kw' s' else None
  | _ :: _, [] => None
  end.

(** [s] starts with the code unit [c]: what follows it. *)
Definition punct (c : code_unit) (s : jsstring) : option jsstring :=
  match s with
  | x :: r => if (x =? c)%N then Some r else None
  | [] => None
  end.

(** What a run of the parser on a piece of text comes to. *)
Inductive Parsed (A : Type) : Type :=
| Got (a : A) (rest : jsstring)
| Invalid                         (* the text is not JSON *)
| Starved.                        (* the fuel did not last *)
Arguments Got {A} a rest.
Arguments Invalid {A}.
Arguments Starved {A}.

(** Recursive descent; every call spends one unit of [fuel] and, before it
    calls again, consumes at least one code unit. *)
Fixpoint value (fuel : nat) (s : jsstring) : Parsed JSValue :=
  match fuel with
  | O => Starved
  | S fuel' =>
      match skip_ws s with
      | [] => Invalid
      | c :: r =>
          if (c =? 34)%N then
            match string_chars r [] with
            | Some (str, r') => Got (JSString str) r'
            | None => Invalid
            end
          else if (c =? 91)%N then
            match punct 93%N (skip_ws r) with
            | Some r' => Got (JSArray []) r'
            | None =>
                match elements fuel' r [] with
                | Got vs r' => Got (JSArray vs) r'
                | Invalid => Invalid
                | Starved => Starved
                end
            end
          else if (c =? 123)%N then
            match punct 125%N (skip_ws r) with
            | Some r' => Got (JSObject []) r'
            | None =>
                match members fuel' r [] with
                | Got ms r' => Got (JSObject ms) r'
                | Invalid => Invalid
                | Starved => Starved
                end
            end
          else if (c =? 116)%N then
            match keyword (js "rue") r with
            | Some r' => Got (JSBoolean true) r'
            | None => Invalid
            end
          else if (c =? 102)%N then
            match keyword (js "alse") r with
            | Some r' => Got (JSBoolean false) r'
            | None => Invalid
            end
          else if (c =? 110)%N then
            match keyword (js "ull") r with
            | Some r' => Got JSNull r'
            | None => Invalid
            end
          else
            match number (c :: r) with
            | Some (lit, r') => Got (JSNumber lit) r'
            | None => Invalid
            end
      end
  end

with elements (fuel : nat) (s : jsstring) (acc : list JSValue)
  : Parsed (list JSValue) :=
  match fuel with
  | O => Starved
  | S fuel' =>
      match value fuel' s with
      | Invalid => Invalid
      | Starved => Starved
      | Got v r =>
          match punct 93%N (skip_ws r) with
          | Some r' => Got (rev (v :: acc)) r'
          | None =>
              match punct 44%N (skip_ws r) with
              | Some r' => elements fuel' r' (v :: acc)
              | None => Invalid
              end
          end
      end
  end

with members (fuel : nat) (s : jsstring) (acc : list (jsstring * JSValue))
  : Parsed (list (jsstring * JSValue)) :=
  match fuel with
  | O => Starved
  | S fuel' =>
      match punct 34%N (skip_ws s) with
      | None => Invalid
      | Some r =>
          match string_chars r [] with
          | None => Invalid
          | Some (key, r1) =>
              match punct 58%N (skip_ws r1) with
              | None => Invalid
              | Some r2 =>
                  match value fuel' r2 with
                  | Invalid => Invalid
                  | Starved => Starved
                  | Got v r3 =>
                      match punct 125%N (skip_ws r3) with
                      | Some r' => Got (rev ((key, v) :: acc)) r'
                      | None =>
                          match punct 44%N (skip_ws r3) with
                          | Some r' => members fuel' r' ((key, v) :: acc)
                          | None => Invalid
                          end
                      end
                  end
              end
          end
      end
  end.

(** Fuel that lasts for any text of this length (see [fuel_lasts]). *)
Definition enough (text : jsstring) : nat := 2 * List.length text + 2.

(** [JSON.parse(text)]: [None] stands for the [SyntaxError] it throws. *)
Definition parse (text : jsstring) : option JSValue :=
  match value (enough text) text with
  | Got v r =>
      match skip_ws r with
      | [] => Some v
      | _ :: _ => None
      end
  | Invalid | Starved => None
  end.

End JSON.

(** ** Data of the adapter *)

Record MinikubeInfo : Type := {
  running : bool;
  cluster : JSValue;
  kubectl : JSValue
}.

(** A field declared [string] that a caller may leave out: the forms that
    [undefined], [null] and a string take at run time. *)
Inductive OptionalString : Type :=
| Undefined
| Null
| Str (s : jsstring).

Record MinikubeOptions : Type := {
  vmDriver : OptionalString;
  additionalFlags : OptionalString
}.

Inductive CheckPresentMode : Type := Alert | Silent.

Record ShellResult : Type := {
  code : Z;
  stdout : jsstring;
  stderr : jsstring
}.

(** How the promise of [shell.exec] settles. *)
Inductive ExecOutcome : Type :=
| Exited (result : ShellResult)
| Threw (err : jsstring).

(** [Errorable<T>]: [{succeeded: true, result}] or [{succeeded: false, error}]. *)
Inductive Errorable (T : Type) : Type :=
| Succeeded (result : T)
| Failed (error : list jsstring).
Arguments Succeeded {T} result.
Arguments Failed {T} error.

Definition succeeded {T} (e : Errorable T) : bool :=
  match e with
  | Succeeded _ => true
  | Failed _ => false
  end.

(** The mutable part of [Context]; its [host], [fs], [shell] and
    [installDependenciesCallback] are the collaborators of the section below. *)
Record Context : Type := {
  binFound : bool;
  binPath : jsstring
}.

Record StatusBarItem : Type := {
  text : jsstring;
  visible : bool
}.

(** What the adapter does to its surroundings, in the order it does it. *)
Inductive Event : Type :=
| Exec (command : jsstring)
| Locate (bin : OptionalString) (binName : jsstring) (alertOnFail : bool)
| AlertUser (message : jsstring)
| ShowInformationMessage (message : jsstring)
| ShowWarningMessage (message : jsstring)
| ShowErrorMessage (message : jsstring).

(** The two [then]/[catch] chains that the adapter attaches without awaiting. *)
Inductive Continuation : Type := StartCompletion | StopCompletion.

Record World : Type := {
  context : Context;
  minikubeStatusBarItem : option StatusBarItem;
  trace : list Event;
  detached : list (Continuation * ExecOutcome);
  itemsCreated : nat    (* calls of [vscode.window.createStatusBarItem] *)
}.

Definition set_context (c : Context) (w : World) : World :=
  {| context := c;
     minikubeStatusBarItem := minikubeStatusBarItem w;
     trace := trace w;
     detached := detached w;
     itemsCreated := itemsCreated w |}.

Definition set_item (i : option StatusBarItem) (w : World) : World :=
  {| context := context w;
     minikubeStatusBarItem := i;
     trace := trace w;
     detached := detached w;
     itemsCreated := itemsCreated w |}.

Definition log (e : Event) (w : World) : World :=
  {| context := context w;
     minikubeStatusBarItem := minikubeStatusBarItem w;
     trace := trace w ++ [e];
     detached := detached w;
     itemsCreated := itemsCreated w |}.

Definition set_detached (d : list (Continuation * ExecOutcome)) (w : World) : World :=
  {| context := context w;
     minikubeStatusBarItem := minikubeStatusBarItem w;
     trace := trace w;
     detached := d;
     itemsCreated := itemsCreated w |}.

(** [vscode.window.createStatusBarItem(..)], kept in the module-level
    variable: a new item, without text and not shown. *)
Definition create_item (w : World) : World :=
  {| context := context w;
     minikubeStatusBarItem := Some {| text := js ""; visible := false |};
     trace := trace w;
     detached := detached w;
     itemsCreated := S (itemsCreated w) |}.

(** [create] builds the implementation with [toolFound = false] and the
    binary path ['minikube']; nothing has happened yet. *)
Definition create : World :=
  {| context := {| binFound := false; binPath := js "minikube" |};
     minikubeStatusBarItem := None;
     trace := [];
     detached := [];
     itemsCreated := 0 |}.

(** ** Promises: a state monad with rejection *)

Inductive Completion (A : Type) : Type :=
| Resolved (a : A)
| Rejected (e : JSError).
Arguments Resolved {A} a.
Arguments Rejected {A} e.

Definition M (A : Type) : Type := World -> Completion A * World.

Definition ret {A} (a : A) : M A := fun w => (Resolved a, w).

Definition throw {A} (e : JSError) : M A := fun w => (Rejected e, w).

Definition bind {A B} (m : M A) (k : A -> M B) : M B :=
  fun w =>
    match m w with
    | (Resolved a, w') => k a w'
    | (Rejected e, w') => (Rejected e, w')
    end.

Declare Scope js_scope.
Delimit Scope js_scope with js.
Notation "x <- m ;; k" := (bind m (fun x => k))
  (at level 61, m at next level, right associativity) : js_scope.
Notation "m ;; k" := (bind m (fun _ => k))
  (at level 61, right associativity) : js_scope.
Local Open Scope js_scope.

Definition gets {A} (f : World -> A) : M A := fun w => (Resolved (f w), w).

Definition modify (f : World -> World) : M unit := fun w => (Resolved tt, f w).

Definition emit (e : Event) : M unit := modify (log e).

(** ** Values at work *)

(** The own property [key] of an object that [JSON.parse] built; of members
    with the same key the last one counts. *)
Definition lookup_member (key : jsstring) (ms : list (jsstring * JSValue)) : JSValue :=
  fold_left (fun found m => if jsstring_eqb (fst m) key then snd m else found)
            ms JSUndefined.

(** [obj[i]]: a [TypeError] on [null] and [undefined], [undefined] where
    there is no such member. *)
Definition index (obj : JSValue) (i : nat) : Completion JSValue :=
  match obj with
  | JSUndefined | JSNull => Rejected TypeError
  | JSBoolean _ | JSNumber _ => Resolved JSUndefined
  | JSString s =>
      match nth_error s i with
      | Some c => Resolved (JSString [c])
      | None => Resolved JSUndefined
      end
  | JSArray vs =>
      match nth_error vs i with
      | Some v => Resolved v
      | None => Resolved JSUndefined
      end
  | JSObject ms => Resolved (lookup_member (js (NilZero.string_of_uint (Nat.to_uint i))) ms)
  end.

(** ['Stopped' !== v]. *)
Definition differs_from_string (lit : jsstring) (v : JSValue) : bool :=
  match v with
  | JSString s => negb (jsstring_eqb lit s)
  | _ => true
  end.

(** Truthiness of an optional string. *)
Definition truthy (o : OptionalString) : bool :=
  match o with
  | Str (_ :: _) => true
  | _ => false
  end.

(** The string of a truthy optional string; of a string in general. *)
Definition string_of (o : OptionalString) : jsstring :=
  match o with
  | Undefined => js "undefined"
  | Null => js "null"
  | Str s => s
  end.

(** ** Command lines *)

(** The argument of [--format], a template for a JSON array of three strings. *)
Definition statusFormat : jsstring :=
  js "[" ++ quoted (js "{{.MinikubeStatus}}") ++ js ","
         ++ quoted (js "{{.ClusterStatus}}") ++ js ","
         ++ quoted (js "{{.KubeconfigStatus}}") ++ js "]".

Definition statusCommand (path : jsstring) : jsstring :=
  path ++ js " status --format '" ++ statusFormat ++ js "'".

Definition helpCommand (path : jsstring) : jsstring := path ++ js " help".

Definition stopCommand (path : jsstring) : jsstring := path ++ js " stop".

(** [flags] as [startMinikube] has it when it builds the command. *)
Definition startFlags (options : MinikubeOptions) : jsstring :=
  let flags :=
    if truthy (additionalFlags options) then string_of (additionalFlags options)
    else js "" in
  if truthy (vmDriver options)
     && (0 <? List.length (string_of (vmDriver options)))%nat
  then flags ++ js " --vm-driver=" ++ string_of (vmDriver options) ++ js " "
  else flags.

(** What follows the binary path and its space in the command of [start]. *)
Definition startArguments (options : MinikubeOptions) : jsstring :=
  startFlags options ++ js " start".

Definition startCommand (path : jsstring) (options : MinikubeOptions) : jsstring :=
  path ++ js " " ++ startArguments options.

(** An optional string that is left out: [undefined], [null] or empty. *)
Definition absent (o : OptionalString) : Prop :=
  o = Undefined \/ o = Null \/ o = Str (js "").

(** ** Observing a world *)

(** The shape that the status format promises. *)
Definition is_three_strings (v : JSValue) : bool :=
  match v with
  | JSArray [JSString _; JSString _; JSString _] => true
  | _ => false
  end.

(** The status-bar item, created if there was none, is shown and reads [t]. *)
Definition indicating (t : jsstring) (w : World) : World :=
  {| context := context w;
     minikubeStatusBarItem := Some {| text := t; visible := true |};
     trace := trace w;
     detached := detached w;
     itemsCreated := match minikubeStatusBarItem w with
                     | Some _ => itemsCreated w
                     | None => S (itemsCreated w)
                     end |}.

(** The commands that were run. *)
Fixpoint executed (t : list Event) : list jsstring :=
  match t with
  | [] => []
  | Exec command :: t' => command :: executed t'
  | _ :: t' => executed t'
  end.

Fixpoint warnings_shown (t : list Event) : list jsstring :=
  match t with
  | [] => []
  | ShowWarningMessage m :: t' => m :: warnings_shown t'
  | _ :: t' => warnings_shown t'
  end.

Fixpoint errors_shown (t : list Event) : list jsstring :=
  match t with
  | [] => []
  | ShowErrorMessage m :: t' => m :: errors_shown t'
  | _ :: t' => errors_shown t'
  end.

(** How often the locator was asked. *)
Fixpoint locator_calls (t : list Event) : nat :=
  match t with
  | [] => 0
  | Locate _ _ _ :: t' => S (locator_calls t')
  | _ :: t' => locator_calls t'
  end.

(** What the locator itself may leave in the trace. *)
Definition locator_event (e : Event) : bool :=
  match e with
  | Locate _ _ _ | AlertUser _ => true
  | _ => false
  end.

(** A computation that, run with the binary already found, leaves it found
    and does not ask the locator. *)
Definition keeps_presence {A} (m : M A) : Prop :=
  forall w,
    binFound (context w) = true ->
    binFound (context (snd (m w))) = true
    /\ locator_calls (trace (snd (m w))) = locator_calls (trace w).

Fixpoint infos_shown (t : list Event) : list jsstring :=
  match t with
  | [] => []
  | ShowInformationMessage m :: t' => m :: infos_shown t'
  | _ :: t' => infos_shown t'
  end.

(** How often the locator was asked to alert the user when it fails. *)
Fixpoint alerting_calls (t : list Event) : nat :=
  match t with
  | [] => 0
  | Locate _ _ true :: t' => S (alerting_calls t')
  | _ :: t' => alerting_calls t'
  end.

(** The commands of the adapter for the binary at [path]. *)
Definition adapter_command (path command : jsstring) : Prop :=
  command = helpCommand path
  \/ command = statusCommand path
  \/ command = stopCommand path
  \/ exists options, command = startCommand path options.

(** A computation that keeps what holds of the world it starts in. *)
Definition preserves {A} (P : World -> Prop) (m : M A) : Prop :=
  forall w, P w -> P (snd (m w)).

(** ** Concrete surroundings

    Small environments on which the adapter can be run: what the shell
    answers, what is configured and what the locator finds. *)

Definition shell_says (result : ShellResult) : list Event -> jsstring -> ExecOutcome :=
  fun _ _ => Exited result.

Definition shell_breaks (err : jsstring) : list Event -> jsstring -> ExecOutcome :=
  fun _ _ => Threw err.

(** A shell that gives one answer to the status query of [minikube] and
    another to every other command. *)
Definition shell_answers (status other : ShellResult)
  : list Event -> jsstring -> ExecOutcome :=
  fun _ command =>
    if jsstring_eqb command (statusCommand (js "minikube")) then Exited status
    else Exited other.

(** A shell that gives one answer to the command [expected] and another
    to every other command. *)
Definition shell_expects (expected : jsstring) (yes no : ShellResult)
  : list Event -> jsstring -> ExecOutcome :=
  fun _ command =>
    if jsstring_eqb command expected then Exited yes else Exited no.

Definition nothing_configured : list Event -> jsstring -> jsstring -> OptionalString :=
  fun _ _ _ => Undefined.

(** The binary is on the path under its own name. *)
Definition on_path : list Event -> OptionalString -> jsstring -> option jsstring :=
  fun _ _ binName => Some binName.

Definition nowhere : list Event -> OptionalString -> jsstring -> option jsstring :=
  fun _ _ _ => None.

(** The array of three strings that the status format asks for. *)
Definition status_line (overall clusterState kubeconfig : jsstring) : jsstring :=
  js "[" ++ quoted overall ++ js "," ++ quoted clusterState ++ js ","
         ++ quoted kubeconfig ++ js "]".

Definition said (exit : Z) (out err : jsstring) : ShellResult :=
  {| code := exit; stdout := out; stderr := err |}.

(** An adapter whose binary has been found already. *)
Definition confirmed : World :=
  set_context {| binFound := true; binPath := js "minikube" |} create.

(** ** The adapter

    Each asynchronous function is followed from its call to the settling of
    the promise it returns, with no other task of the adapter running in
    between; what was launched without [await] waits in [detached] until
    [settle] runs it. *)

Section Adapter.

(** [context.shell.exec(command)]: how its promise settles, given what has
    happened so far. *)
Variable shell_exec : list Event -> jsstring -> ExecOutcome.

(** [context.host.getConfiguration(section)[key]]. *)
Variable getConfiguration : list Event -> jsstring -> jsstring -> OptionalString.

(** What a search for the binary finds, given the configured path and the
    binary name: the path under which it exists, if it does. *)
Variable locate_binary : list Event -> OptionalString -> jsstring -> option jsstring.

(** What a [Diagnostic] is and what the two results of the exit-code check
    carry is not fixed by anything the adapter does. *)
Variable Diagnostic : Type.
Variable diagnostic : ShellResult -> Diagnostic.
Variable failure_report : ShellResult -> list jsstring.

(** Modelled from the spec: [binutil.checkForBinary], the binary locator,
    which is not among the sources. "Given a configured or inferred path and
    a binary name, resolves and caches whether the binary exists, optionally
    prompting the user"; "if [alertOnFailure] is set, locator failures must
    be surfaced to the user, otherwise they are silent. Side effect: updates
    cached presence on success"; an absent or empty configured path "means
    infer from PATH". *)
Definition checkForBinary (bin : OptionalString)
    (binName inferFailedMessage configuredFileMissingMessage : jsstring)
    (alertOnFail : bool) : M bool :=
  found <- gets (fun w => locate_binary (trace w) bin binName) ;;
  emit (Locate bin binName alertOnFail) ;;
  match found with
  | Some path =>
      modify (set_context {| binFound := true; binPath := path |}) ;;
      ret true
  | None =>
      (if alertOnFail
       then emit (AlertUser (if truthy bin then configuredFileMissingMessage
                             else inferFailedMessage))
       else ret tt) ;;
      ret false
  end.

(** Modelled from the spec: [fromShellExitCodeOnly] of [wizard.ts], which is
    not among the sources: it "maps exit-code 0 to success, non-zero to
    failure, with no output parsing". *)
Definition fromShellExitCodeOnly (sr : ShellResult) : Errorable Diagnostic :=
  if (code sr =? 0)%Z then Succeeded (diagnostic sr)
  else Failed (failure_report sr).

(** [await context.shell.exec(command)]. *)
Definition exec (command : jsstring) : M ShellResult :=
  outcome <- gets (fun w => shell_exec (trace w) command) ;;
  emit (Exec command) ;;
  match outcome with
  | Exited result => ret result
  | Threw err => throw (Reason err)
  end.

(** [context.shell.exec(command).then(..).catch(..)]: the command is
    launched, the chain [k] is attached, and nothing is awaited. *)
Definition exec_detached (command : jsstring) (k : Continuation) : M unit :=
  outcome <- gets (fun w => shell_exec (trace w) command) ;;
  emit (Exec command) ;;
  modify (fun w => set_detached (detached w ++ [(k, outcome)]) w).

Definition checkForMinikubeInternal (mode : CheckPresentMode) : M bool :=
  let binName := js "minikube" in
  bin <- gets (fun w => getConfiguration (trace w) (js "vs-kubernetes")
                          (js "vs-kubernetes." ++ binName ++ js "-path")) ;;
  let inferFailedMessage :=
    js "Could not find " ++ quoted (js "minikube") ++ js " binary." in
  let configuredFileMissingMessage := string_of bin ++ js " does not exist!" in
  checkForBinary bin binName inferFailedMessage configuredFileMissingMessage
    (match mode with Alert => true | Silent => false end).

Definition checkPresent (mode : CheckPresentMode) : M bool :=
  found <- gets (fun w => binFound (context w)) ;;
  if found then ret true
  else checkForMinikubeInternal mode.

Definition isRunnableMinikube : M (Errorable Diagnostic) :=
  present <- checkPresent Alert ;;
  if negb present then ret (Failed [js "Minikube is not installed"])
  else
    path <- gets (fun w => binPath (context w)) ;;
    sr <- exec (helpCommand path) ;;
    ret (fromShellExitCodeOnly sr).

(** The module-level [minikubeStatusBarItem], created on first use; [item]
    in the functions below is always this one object. *)
Definition getStatusBar : M unit :=
  modify (fun w =>
    match minikubeStatusBarItem w with
    | Some _ => w
    | None => create_item w
    end).

Definition update_item (f : StatusBarItem -> StatusBarItem) : M unit :=
  modify (fun w => set_item (option_map f (minikubeStatusBarItem w)) w).

Definition item_text (t : jsstring) : M unit :=
  update_item (fun i => {| text := t; visible := visible i |}).

Definition item_show : M unit :=
  update_item (fun i => {| text := text i; visible := true |}).

Definition item_hide : M unit :=
  update_item (fun i => {| text := text i; visible := false |}).

Definition lift {A} (c : Completion A) : M A := fun w => (c, w).

Definition JSON_parse (s : jsstring) : M JSValue :=
  match JSON.parse s with
  | Some v => ret v
  | None => throw SyntaxError
  end.

Definition minikubeStatus : M MinikubeInfo :=
  present <- checkPresent Silent ;;
  if negb present
  then throw (Error (js "minikube executable could not be found!"))
  else
    path <- gets (fun w => binPath (context w)) ;;
    result <- exec (statusCommand path) ;;
    if (List.length (stderr result) =? 0)%nat then
      obj <- JSON_parse (stdout result) ;;
      obj0 <- lift (index obj 0) ;;
      obj1 <- lift (index obj 1) ;;
      obj2 <- lift (index obj 2) ;;
      ret {| running := differs_from_string (js "Stopped") obj0;
             cluster := obj1;
             kubectl := obj2 |}
    else throw (Error (js "failed to get status: " ++ stderr result)).

Definition startMinikube (options : MinikubeOptions) : M unit :=
  present <- checkPresent Alert ;;
  if negb present then ret tt
  else
    getStatusBar ;;
    item_text (js "minikube-starting") ;;
    item_show ;;
    status <- minikubeStatus ;;
    if running status then
      emit (ShowWarningMessage (js "Minikube cluster is already started."))
    else
      path <- gets (fun w => binPath (context w)) ;;
      exec_detached (startCommand path options) StartCompletion.

Definition stopMinikube : M unit :=
  present <- checkPresent Alert ;;
  if negb present then ret tt
  else
    getStatusBar ;;
    item_text (js "minikube-stopping") ;;
    item_show ;;
    status <- minikubeStatus ;;
    if negb (running status) then
      emit (ShowWarningMessage (js "Minikube cluster is already stopped."))
    else
      path <- gets (fun w => binPath (context w)) ;;
      exec_detached (stopCommand path) StopCompletion.

(** The chain attached in [startMinikube], run on the outcome of the
    command. *)
Definition startCompleted (outcome : ExecOutcome) : M unit :=
  match outcome with
  | Exited result =>
      if (code result =? 0)%Z then
        emit (ShowInformationMessage (js "Cluster started.")) ;;
        item_text (js "minikube-running")
      else
        emit (ShowErrorMessage (js "Failed to start cluster " ++ stderr result)) ;;
        item_hide
  | Threw err =>
      item_hide ;;
      emit (ShowErrorMessage (js "Failed to start cluster: " ++ err))
  end.

(** The chain attached in [stopMinikube]. *)
Definition stopCompleted (outcome : ExecOutcome) : M unit :=
  match outcome with
  | Exited result =>
      if (code result =? 0)%Z then
        emit (ShowInformationMessage (js "Cluster stopped.")) ;;
        item_hide
      else
        emit (ShowErrorMessage (js "Error stopping cluster " ++ stderr result)) ;;
        item_hide
  | Threw err =>
      emit (ShowErrorMessage (js "Error stopping cluster: " ++ err)) ;;
      item_hide
  end.

(** The oldest launched command finishes and its chain runs; nobody holds
    the promise of the chain, so its completion goes nowhere. *)
Definition settle (w : World) : World :=
  match detached w with
  | [] => w
  | (StartCompletion, outcome) :: rest =>
      snd (startCompleted outcome (set_detached rest w))
  | (StopCompletion, outcome) :: rest =>
      snd (stopCompleted outcome (set_detached rest w))
  end.

(** What can happen to one adapter, one thing after the other. *)
Inductive Call : Type :=
| CallCheckPresent (mode : CheckPresentMode)
| CallIsRunnable
| CallStart (options : MinikubeOptions)
| CallStop
| CallStatus
| Settle.

Definition perform (c : Call) (w : World) : World :=
  match c with
  | CallCheckPresent mode => snd (checkPresent mode w)
  | CallIsRunnable => snd (isRunnableMinikube w)
  | CallStart options => snd (startMinikube options w)
  | CallStop => snd (stopMinikube w)
  | CallStatus => snd (minikubeStatus w)
  | Settle => settle w
  end.

Definition run (calls : list Call) (w : World) : World :=
  fold_left (fun w' c => perform c w') calls w.

(** The calls that have no business with the status bar. *)
Definition leaves_item (c : Call) : bool :=
  match c with
  | CallCheckPresent _ | CallIsRunnable | CallStatus => true
  | CallStart _ | CallStop | Settle => false
  end.


(** ** Reasoning about computations *)

Arguments js : simpl never.

Lemma jsstring_eqb_eq (a b : jsstring) : jsstring_eqb a b = true <-> a = b.
Proof.
  revert b; induction a as [|x a IH]; intros [|y b]; simpl; split;
    try congruence; try reflexivity.
  - intros H. apply andb_true_iff in H as [Hx Hab].
    apply N.eqb_eq in Hx. apply IH in Hab. congruence.
  - intros H. injection H as -> ->.
    apply andb_true_iff. split; [apply N.eqb_refl | now apply IH].
Qed.

Lemma differs_from_string_spec (lit s : jsstring) :
  differs_from_string lit (JSString s) = true <-> s <> lit.
Proof.
  simpl. rewrite negb_true_iff. split.
  - intros H E. subst s.
    assert (jsstring_eqb lit lit = true) by now apply jsstring_eqb_eq.
    congruence.
  - intros H. destruct (jsstring_eqb lit s) eqn:E; [|reflexivity].
    apply jsstring_eqb_eq in E. congruence.
Qed.

Lemma equals_string_spec (lit s : jsstring) :
  differs_from_string lit (JSString s) = false <-> s = lit.
Proof.
  simpl. rewrite negb_false_iff, jsstring_eqb_eq. split; congruence.
Qed.

Lemma length_zero_iff (s : jsstring) : (List.length s =? 0)%nat = true <-> s = [].
Proof. destruct s; simpl; split; congruence. Qed.

(** *** The parser

    Lengths of what is left of the text, to see that the fuel of
    [JSON.parse] is enough. *)

Lemma skip_ws_length (s : jsstring) : List.length (JSON.skip_ws s) <= List.length s.
Proof.
  induction s as [|c s IH]; simpl; [lia|].
  destruct (JSON.is_ws c); simpl; lia.
Qed.

Lemma punct_length (c : code_unit) (s r : jsstring) :
  JSON.punct c s = Some r -> List.length s = S (List.length r).
Proof.
  destruct s as [|x s]; simpl; [discriminate|].
  destruct (x =? c)%N; [|discriminate]. intros H; injection H as <-. reflexivity.
Qed.

Lemma keyword_length (kw s r : jsstring) :
  JSON.keyword kw s = Some r -> List.length r <= List.length s.
Proof.
  revert s. induction kw as [|k kw IH]; intros [|c s]; simpl; try discriminate.
  - intros H; injection H as <-. simpl. lia.
  - intros H; injection H as <-. simpl. lia.
  - destruct (k =? c)%N; [|discriminate]. intros H. apply IH in H. lia.
Qed.

Lemma string_chars_length (n : nat) :
  forall s acc str r,
    List.length s <= n ->
    JSON.string_chars s acc = Some (str, r) -> List.length r < List.length s.
Proof.
  induction n as [|n IH]; intros s acc str r Hn.
  - destruct s; [discriminate|simpl in Hn; lia].
  - destruct s as [|c s1]; [discriminate|]. simpl in Hn. simpl.
    destruct (c =? 34)%N.
    { intros H; injection H as _ <-. lia. }
    destruct (c =? 92)%N.
    + destruct s1 as [|e s2]; [discriminate|].
      destruct (e =? 117)%N.
      * destruct s2 as [|h1 [|h2 [|h3 [|h4 s3]]]]; try discriminate.
        destruct (JSON.hex4 h1 h2 h3 h4); [|discriminate].
        intros H. apply IH in H; simpl in *; lia.
      * destruct (JSON.escape e); [|discriminate].
        intros H. apply IH in H; simpl in *; lia.
    + destruct (c <? 32)%N; [discriminate|].
      intros H. apply IH in H; simpl in *; lia.
Qed.

Lemma digits_length (s acc : jsstring) :
  List.length (snd (JSON.digits s acc)) <= List.length s.
Proof.
  revert acc. induction s as [|c s IH]; intros acc; simpl; [lia|].
  destruct (JSON.is_digit c); simpl; [specialize (IH (c :: acc)); lia | lia].
Qed.

Lemma digits1_length (s acc a r : jsstring) :
  JSON.digits1 s acc = Some (a, r) -> List.length r < List.length s.
Proof.
  destruct s as [|c s]; simpl; [discriminate|].
  destruct (JSON.is_digit c); [|discriminate].
  intros H; injection H as H. pose proof (digits_length s (c :: acc)) as L.
  rewrite H in L. simpl in L. lia.
Qed.

Lemma number_length (s lit r : jsstring) :
  JSON.number s = Some (lit, r) -> List.length r < List.length s.
Proof.
  unfold JSON.number.
  assert (Hint : forall s0 acc0 acc1 s1,
             JSON.int_part s0 acc0 = Some (acc1, s1) ->
             List.length s1 < List.length s0).
  { intros [|c s0] acc0 acc1 s1; simpl; [discriminate|].
    destruct (c =? 48)%N.
    - intros H; injection H as _ <-. lia.
    - destruct (JSON.is_digit c); [|discriminate].
      intros H; injection H as H. pose proof (digits_length s0 (c :: acc0)) as L.
      rewrite H in L. simpl in L. lia. }
  assert (Hfrac : forall s1 acc1 acc2 s2,
             JSON.frac_part s1 acc1 = Some (acc2, s2) ->
             List.length s2 <= List.length s1).
  { intros [|c s1] acc1 acc2 s2; simpl.
    - intros H; injection H as _ <-. simpl. lia.
    - destruct (c =? 46)%N.
      + intros H. apply digits1_length in H. lia.
      + intros H; injection H as _ <-. simpl. lia. }
  assert (Hexp : forall s2 acc2 acc3 s3,
             JSON.exp_part s2 acc2 = Some (acc3, s3) ->
             List.length s3 <= List.length s2).
  { intros [|c s2] acc2 acc3 s3; simpl.
    - intros H; injection H as _ <-. simpl. lia.
    - destruct ((c =? 101)%N || (c =? 69)%N).
      + destruct s2 as [|g s2]; [discriminate|].
        destruct ((g =? 43)%N || (g =? 45)%N); intros H;
          apply digits1_length in H; simpl in *; lia.
      + intros H; injection H as _ <-. simpl. lia. }
  destruct s as [|c s]; [discriminate|].
  destruct (c =? 45)%N;
    (destruct (JSON.int_part _ _) as [[acc1 s1]|] eqn:E1; [|discriminate];
     destruct (JSON.frac_part _ _) as [[acc2 s2]|] eqn:E2; [|discriminate];
     destruct (JSON.exp_part _ _) as [[acc3 s3]|] eqn:E3; [|discriminate];
     intros H; injection H as _ <-;
     apply Hint in E1; apply Hfrac in E2; apply Hexp in E3; simpl in *; lia).
Qed.

(** Facts about lengths that the parsing steps in the context give. *)
Ltac lengths :=
  repeat match goal with
         | H : JSON.punct _ _ = Some _ |- _ => apply punct_length in H
         | H : JSON.keyword _ _ = Some _ |- _ => apply keyword_length in H
         | H : JSON.number _ = Some _ |- _ => apply number_length in H
         | H : JSON.string_chars ?s _ = Some _ |- _ =>
             apply (string_chars_length (List.length s)) in H; [|apply le_n]
         | H : JSON.skip_ws ?s = _ |- _ =>
             let L := fresh "L" in
             pose proof (skip_ws_length s) as L; rewrite H in L; clear H
         | |- context [JSON.skip_ws ?s] =>
             lazymatch goal with
             | _ : List.length (JSON.skip_ws s) <= List.length s |- _ => fail
             | _ => pose proof (skip_ws_length s)
             end
         | H : context [JSON.skip_ws ?s] |- _ =>
             lazymatch goal with
             | _ : List.length (JSON.skip_ws s) <= List.length s |- _ => fail
             | _ => pose proof (skip_ws_length s)
             end
         end;
  simpl List.length in *.

(** Every successful step of the parser consumes some of the text. *)
Lemma parser_consumes (fuel : nat) :
  (forall s v r, JSON.value fuel s = JSON.Got v r -> List.length r < List.length s)
  /\ (forall s acc vs r,
        JSON.elements fuel s acc = JSON.Got vs r -> List.length r < List.length s)
  /\ (forall s acc ms r,
        JSON.members fuel s acc = JSON.Got ms r -> List.length r < List.length s).
Proof.
  induction fuel as [|fuel (IHv & IHe & IHm)];
    [repeat split; intros; discriminate|].
  split; [|split].
  - intros s v r. cbn [JSON.value].
    destruct (JSON.skip_ws s) as [|c t] eqn:Es; [discriminate|].
    repeat match goal with
           | |- context [if ?b then _ else _] => destruct b
           end;
      repeat match goal with
             | |- context [match ?x with _ => _ end] =>
                 let E := fresh "E" in
                 (destruct x as [[? ?]|] eqn:E || destruct x eqn:E)
             end;
      intros H; try discriminate H; injection H as _ <-;
      try match goal with
          | G : JSON.elements _ _ _ = JSON.Got _ _ |- _ => apply IHe in G
          | G : JSON.members _ _ _ = JSON.Got _ _ |- _ => apply IHm in G
          end;
      lengths; lia.
  - intros s acc vs r. cbn [JSON.elements].
    destruct (JSON.value fuel s) as [v t| |] eqn:Ev; try discriminate.
    apply IHv in Ev.
    destruct (JSON.punct 93%N _) as [r'|] eqn:E1.
    + intros H; injection H as _ <-. lengths. lia.
    + destruct (JSON.punct 44%N _) as [r'|] eqn:E2; [|discriminate].
      intros H. apply IHe in H. lengths. lia.
  - intros s acc ms r. cbn [JSON.members].
    destruct (JSON.punct 34%N _) as [t|] eqn:E1; [|discriminate].
    destruct (JSON.string_chars t []) as [[key t1]|] eqn:E2; [|discriminate].
    destruct (JSON.punct 58%N _) as [t2|] eqn:E3; [|discriminate].
    destruct (JSON.value fuel t2) as [v t3| |] eqn:Ev; try discriminate.
    apply IHv in Ev.
    destruct (JSON.punct 125%N _) as [r'|] eqn:E4.
    + intros H; injection H as _ <-. lengths. lia.
    + destruct (JSON.punct 44%N _) as [r'|] eqn:E5; [|discriminate].
      intros H. apply IHm in H. lengths. lia.
Qed.

(** Two units of fuel per code unit, and one or two to start with, last. *)
Lemma fuel_lasts (fuel : nat) :
  (forall s, 2 * List.length s + 1 <= fuel -> JSON.value fuel s <> JSON.Starved)
  /\ (forall s acc,
        2 * List.length s + 2 <= fuel -> JSON.elements fuel s acc <> JSON.Starved)
  /\ (forall s acc,
        2 * List.length s + 2 <= fuel -> JSON.members fuel s acc <> JSON.Starved).
Proof.
  induction fuel as [|fuel (IHv & IHe & IHm)];
    [repeat split; intros; lia|].
  split; [|split].
  - intros s Hf. cbn [JSON.value].
    destruct (JSON.skip_ws s) as [|c t] eqn:Es; [discriminate|].
    assert (Ht : 2 * List.length t + 2 <= fuel) by (lengths; lia).
    repeat match goal with
           | |- context [if ?b then _ else _] => destruct b
           end;
      repeat match goal with
             | |- context [match ?x with _ => _ end] =>
                 let E := fresh "E" in
                 (destruct x as [[? ?]|] eqn:E || destruct x eqn:E)
             end;
      try discriminate;
      intros _;
      first [ now apply (IHe t [] Ht) | now apply (IHm t [] Ht) ].
  - intros s acc Hf. cbn [JSON.elements].
    destruct (JSON.value fuel s) as [v t| |] eqn:Ev; try discriminate.
    + pose proof (proj1 (parser_consumes fuel) _ _ _ Ev) as Lv.
      destruct (JSON.punct 93%N _) as [r'|] eqn:E1; [discriminate|].
      destruct (JSON.punct 44%N _) as [r'|] eqn:E2; [|discriminate].
      apply IHe. lengths. lia.
    + intros _. apply (IHv s); [lia|assumption].
  - intros s acc Hf. cbn [JSON.members].
    destruct (JSON.punct 34%N _) as [t|] eqn:E1; [|discriminate].
    destruct (JSON.string_chars t []) as [[key t1]|] eqn:E2; [|discriminate].
    destruct (JSON.punct 58%N _) as [t2|] eqn:E3; [|discriminate].
    destruct (JSON.value fuel t2) as [v t3| |] eqn:Ev; try discriminate.
    + pose proof (proj1 (parser_consumes fuel) _ _ _ Ev) as Lv.
      destruct (JSON.punct 125%N _) as [r'|] eqn:E4; [discriminate|].
      destruct (JSON.punct 44%N _) as [r'|] eqn:E5; [|discriminate].
      apply IHm. lengths. lia.
    + intros _. apply (IHv t2); [lengths; lia|assumption].
Qed.

(** [JSON.parse] never answers for want of fuel. *)
Lemma parse_fuel (text : jsstring) :
  JSON.value (JSON.enough text) text <> JSON.Starved.
Proof. apply fuel_lasts. unfold JSON.enough. lia. Qed.

(** When [JSON.parse] gives nothing, the text is not JSON: either no value
    can be read from it or something follows the value. *)
Lemma parse_none (text : jsstring) :
  JSON.parse text = None ->
  JSON.value (JSON.enough text) text = JSON.Invalid
  \/ exists v r,
       JSON.value (JSON.enough text) text = JSON.Got v r
       /\ JSON.skip_ws r <> [].
Proof.
  unfold JSON.parse. pose proof (parse_fuel text) as Hf.
  destruct (JSON.value (JSON.enough text) text) as [v r| |]; intros H.
  - right. exists v, r. split; [reflexivity|].
    destruct (JSON.skip_ws r); [discriminate H|discriminate].
  - now left.
  - contradiction.
Qed.

(** [JSON.parse] never returns [undefined]. *)
Lemma value_defined (fuel : nat) (s r : jsstring) (v : JSValue) :
  JSON.value fuel s = JSON.Got v r -> v <> JSUndefined.
Proof.
  destruct fuel as [|fuel]; simpl; [discriminate|].
  destruct (JSON.skip_ws s) as [|c t]; [discriminate|].
  repeat match goal with
         | |- context [if ?b then _ else _] => destruct b
         | |- context [match ?x with Some _ => _ | None => _ end] =>
             destruct x as [[? ?]|] || destruct x
         | |- context [match ?x with JSON.Got _ _ => _ | _ => _ end] =>
             destruct x
         end;
    intros H; try discriminate H; injection H as <- _; discriminate.
Qed.

Lemma parse_defined (s : jsstring) (v : JSValue) :
  JSON.parse s = Some v -> v <> JSUndefined.
Proof.
  unfold JSON.parse.
  destruct (JSON.value _ s) as [v' r| |] eqn:E; try discriminate.
  destruct (JSON.skip_ws r); [|discriminate].
  intros H; injection H as <-. eapply value_defined; eassumption.
Qed.

(** Indexing fails on [null] and [undefined] only. *)
Lemma index_defined (v : JSValue) (i : nat) :
  v <> JSNull -> v <> JSUndefined -> exists o, index v i = Resolved o.
Proof.
  intros Hn Hu. destruct v; try congruence; simpl; eauto.
  - destruct (nth_error s i); eauto.
  - destruct (nth_error elements i); eauto.
Qed.

(** *** Presence *)

Lemma checkPresent_found (mode : CheckPresentMode) (w : World) :
  binFound (context w) = true -> checkPresent mode w = (Resolved true, w).
Proof. intros H. unfold checkPresent, bind, gets. now rewrite H. Qed.

Lemma checkPresent_missing (mode : CheckPresentMode) (w : World) :
  binFound (context w) = false ->
  checkPresent mode w = checkForMinikubeInternal mode w.
Proof. intros H. unfold checkPresent, bind, gets. now rewrite H. Qed.

Lemma executed_app (a b : list Event) : executed (a ++ b) = executed a ++ executed b.
Proof.
  induction a as [|e a IH]; [reflexivity|].
  destruct e; simpl; now rewrite IH.
Qed.

Lemma warnings_shown_app (a b : list Event) :
  warnings_shown (a ++ b) = warnings_shown a ++ warnings_shown b.
Proof.
  induction a as [|e a IH]; [reflexivity|].
  destruct e; simpl; now rewrite IH.
Qed.

Lemma errors_shown_app (a b : list Event) :
  errors_shown (a ++ b) = errors_shown a ++ errors_shown b.
Proof.
  induction a as [|e a IH]; [reflexivity|].
  destruct e; simpl; now rewrite IH.
Qed.

Lemma locator_calls_app (a b : list Event) :
  locator_calls (a ++ b) = locator_calls a + locator_calls b.
Proof.
  induction a as [|e a IH]; [reflexivity|].
  destruct e; simpl; now rewrite IH.
Qed.

(** The locator runs no command of the adapter and shows none of its
    messages. *)
Lemma locator_events_silent (ev : list Event) :
  forallb locator_event ev = true ->
  executed ev = [] /\ warnings_shown ev = [] /\ errors_shown ev = [].
Proof.
  induction ev as [|e ev IH]; [now repeat split|].
  simpl. intros H. apply andb_true_iff in H as [He Hev].
  destruct e; try discriminate; simpl; auto.
Qed.

Lemma checkPresent_cases (mode : CheckPresentMode) (w : World) :
  exists found w' ev,
    checkPresent mode w = (Resolved found, w')
    /\ binFound (context w') = found
    /\ minikubeStatusBarItem w' = minikubeStatusBarItem w
    /\ detached w' = detached w
    /\ trace w' = trace w ++ ev
    /\ forallb locator_event ev = true
    /\ locator_calls ev = (if binFound (context w) then 0 else 1)
    /\ (binFound (context w) = true -> w' = w).
Proof.
  destruct (binFound (context w)) eqn:Hf.
  - exists true, w, []. rewrite checkPresent_found by assumption.
    rewrite app_nil_r. repeat split; auto.
  - rewrite checkPresent_missing by assumption.
    unfold checkForMinikubeInternal, checkForBinary, bind, gets, emit, modify, ret.
    cbv beta iota.
    destruct (locate_binary (trace w) _ _) as [path|].
    + eexists true, _, [_]. repeat split; try reflexivity. discriminate.
    + destruct mode; cbv beta iota.
      * eexists false, _, _.
        split; [reflexivity|]. split; [exact Hf|].
        split; [reflexivity|]. split; [reflexivity|].
        split; [cbn [log trace]; rewrite <- app_assoc; reflexivity|].
        split; [reflexivity|]. split; [reflexivity|discriminate].
      * eexists false, _, [_].
        split; [reflexivity|]. split; [exact Hf|].
        repeat split; try reflexivity. discriminate.
Qed.

Lemma checkPresent_true (mode : CheckPresentMode) (w w' : World) :
  checkPresent mode w = (Resolved true, w') -> binFound (context w') = true.
Proof.
  intros H. destruct (checkPresent_cases mode w) as (f & w1 & ev & E & Hf & _).
  rewrite E in H. injection H as -> ->. assumption.
Qed.

Lemma checkPresent_false (mode : CheckPresentMode) (w w' : World) :
  checkPresent mode w = (Resolved false, w') -> binFound (context w') = false.
Proof.
  intros H. destruct (checkPresent_cases mode w) as (f & w1 & ev & E & Hf & _).
  rewrite E in H. injection H as -> ->. assumption.
Qed.

(** *** Status *)

Ltac step_status :=
  unfold minikubeStatus, exec, JSON_parse, lift, bind, gets, emit, modify,
    ret, throw;
  cbn [negb]; cbv beta iota.

Lemma minikubeStatus_after_check (w w1 : World) :
  checkPresent Silent w = (Resolved true, w1) ->
  minikubeStatus w = minikubeStatus w1.
Proof.
  intros H. pose proof (checkPresent_true _ _ _ H) as Hf.
  unfold minikubeStatus, bind.
  rewrite H, (checkPresent_found Silent w1 Hf). reflexivity.
Qed.

Lemma minikubeStatus_absent (w w1 : World) :
  checkPresent Silent w = (Resolved false, w1) ->
  minikubeStatus w
  = (Rejected (Error (js "minikube executable could not be found!")), w1).
Proof. intros H. unfold minikubeStatus, bind. now rewrite H. Qed.

Section StatusOfFoundBinary.

Variable w : World.
Hypothesis Hfound : binFound (context w) = true.

Let command := statusCommand (binPath (context w)).
Let after := log (Exec command) w.

Lemma minikubeStatus_threw (err : jsstring) :
  shell_exec (trace w) command = Threw err ->
  minikubeStatus w = (Rejected (Reason err), after).
Proof.
  intros He. unfold minikubeStatus, bind.
  rewrite (checkPresent_found Silent w Hfound). step_status.
  fold command. now rewrite He.
Qed.

Lemma minikubeStatus_stderr (result : ShellResult) :
  shell_exec (trace w) command = Exited result ->
  stderr result <> [] ->
  minikubeStatus w
  = (Rejected (Error (js "failed to get status: " ++ stderr result)), after).
Proof.
  intros He Hs. unfold minikubeStatus, bind.
  rewrite (checkPresent_found Silent w Hfound). step_status.
  fold command. rewrite He. cbv beta iota.
  destruct (List.length (stderr result) =? 0)%nat eqn:E; [|reflexivity].
  apply length_zero_iff in E. contradiction.
Qed.

Lemma minikubeStatus_syntax (result : ShellResult) :
  shell_exec (trace w) command = Exited result ->
  stderr result = [] ->
  JSON.parse (stdout result) = None ->
  minikubeStatus w = (Rejected SyntaxError, after).
Proof.
  intros He Hs Hp. unfold minikubeStatus, bind.
  rewrite (checkPresent_found Silent w Hfound). step_status.
  fold command. rewrite He. cbv beta iota.
  rewrite (proj2 (length_zero_iff _) Hs), Hp. reflexivity.
Qed.

Lemma minikubeStatus_null (result : ShellResult) :
  shell_exec (trace w) command = Exited result ->
  stderr result = [] ->
  JSON.parse (stdout result) = Some JSNull ->
  minikubeStatus w = (Rejected TypeError, after).
Proof.
  intros He Hs Hp. unfold minikubeStatus, bind.
  rewrite (checkPresent_found Silent w Hfound). step_status.
  fold command. rewrite He. cbv beta iota.
  rewrite (proj2 (length_zero_iff _) Hs), Hp. reflexivity.
Qed.

Lemma minikubeStatus_parsed (result : ShellResult) (v o0 o1 o2 : JSValue) :
  shell_exec (trace w) command = Exited result ->
  stderr result = [] ->
  JSON.parse (stdout result) = Some v ->
  index v 0 = Resolved o0 ->
  index v 1 = Resolved o1 ->
  index v 2 = Resolved o2 ->
  minikubeStatus w
  = (Resolved {| running := differs_from_string (js "Stopped") o0;
                 cluster := o1;
                 kubectl := o2 |}, after).
Proof.
  intros He Hs Hp H0 H1 H2. unfold minikubeStatus, bind.
  rewrite (checkPresent_found Silent w Hfound). step_status.
  fold command. rewrite He. cbv beta iota.
  rewrite (proj2 (length_zero_iff _) Hs), Hp. cbv beta iota.
  rewrite H0, H1, H2. reflexivity.
Qed.

(** Whatever the command does, the status query leaves one trace: the
    command itself. *)
Lemma minikubeStatus_world : snd (minikubeStatus w) = after.
Proof.
  destruct (shell_exec (trace w) command) as [result|err] eqn:He.
  - destruct (stderr result) as [|c s] eqn:Hs.
    + destruct (JSON.parse (stdout result)) as [v|] eqn:Hp.
      * unfold minikubeStatus, bind.
        rewrite (checkPresent_found Silent w Hfound). step_status.
        fold command. rewrite He. cbv beta iota.
        rewrite Hs, Hp. cbv beta iota. simpl Nat.eqb. cbv iota.
        destruct (index v 0); [|reflexivity].
        destruct (index v 1); [|reflexivity].
        destruct (index v 2); reflexivity.
      * now rewrite (minikubeStatus_syntax result).
    + rewrite (minikubeStatus_stderr result); [reflexivity|assumption|].
      rewrite Hs. discriminate.
  - now rewrite (minikubeStatus_threw err).
Qed.

(** A status that was returned came from a command that wrote nothing to
    its error output and whose output [JSON.parse] accepted. *)
Lemma minikubeStatus_resolved (info : MinikubeInfo) (w' : World) :
  minikubeStatus w = (Resolved info, w') ->
  exists result v o0 o1 o2,
    shell_exec (trace w) command = Exited result
    /\ stderr result = []
    /\ JSON.parse (stdout result) = Some v
    /\ index v 0 = Resolved o0
    /\ index v 1 = Resolved o1
    /\ index v 2 = Resolved o2
    /\ info = {| running := differs_from_string (js "Stopped") o0;
                 cluster := o1;
                 kubectl := o2 |}
    /\ w' = after.
Proof.
  intros H.
  destruct (shell_exec (trace w) command) as [result|err] eqn:He.
  2: { rewrite (minikubeStatus_threw err He) in H. discriminate. }
  destruct (stderr result) as [|c s] eqn:Hs.
  2: { rewrite (minikubeStatus_stderr result He) in H; [discriminate|].
       rewrite Hs. discriminate. }
  destruct (JSON.parse (stdout result)) as [v|] eqn:Hp.
  2: { rewrite (minikubeStatus_syntax result He Hs Hp) in H. discriminate. }
  destruct (index v 0) as [o0|e0] eqn:H0.
  - destruct (index_defined v 1) as [o1 H1];
      [intros ->; discriminate | intros ->; discriminate |].
    destruct (index_defined v 2) as [o2 H2];
      [intros ->; discriminate | intros ->; discriminate |].
    rewrite (minikubeStatus_parsed result v o0 o1 o2 He Hs Hp H0 H1 H2) in H.
    injection H as <- <-.
    exists result, v, o0, o1, o2. repeat split; assumption.
  - assert (v = JSNull) as ->.
    { destruct v as [| | | |s|vs|]; try discriminate.
      - exfalso. eapply parse_defined; eauto.
      - reflexivity.
      - destruct s; discriminate.
      - destruct vs; discriminate. }
    rewrite (minikubeStatus_null result He Hs Hp) in H. discriminate.
Qed.

End StatusOfFoundBinary.

(** ** The status query *)

(** C1. When the status command's output parses as a JSON array of three
    strings, the status that [minikubeStatus] returns has [running] true
    exactly when the first string is not ["Stopped"], and carries the other
    two strings as [cluster] and [kubectl]; with nothing on the error
    output such a status is indeed returned. *)
Theorem status_running_iff_not_stopped
    (w w1 : World) (result : ShellResult) (s0 s1 s2 : jsstring) :
  checkPresent Silent w = (Resolved true, w1) ->
  shell_exec (trace w1) (statusCommand (binPath (context w1))) = Exited result ->
  JSON.parse (stdout result)
  = Some (JSArray [JSString s0; JSString s1; JSString s2]) ->
  (stderr result = [] ->
   exists info w', minikubeStatus w = (Resolved info, w'))
  /\ (forall info w',
        minikubeStatus w = (Resolved info, w') ->
        (running info = true <-> s0 <> js "Stopped")
        /\ (running info = false <-> s0 = js "Stopped")
        /\ cluster info = JSString s1
        /\ kubectl info = JSString s2).
Proof.
  intros Hc He Hp. pose proof (checkPresent_true _ _ _ Hc) as Hf.
  rewrite (minikubeStatus_after_check w w1 Hc). split.
  - intros Hs. eexists _, _.
    now apply (minikubeStatus_parsed w1 Hf result _ (JSString s0) (JSString s1)
                 (JSString s2) He Hs Hp).
  - intros info w' H.
    apply (minikubeStatus_resolved w1 Hf) in H
      as (result' & v & o0 & o1 & o2 & He' & _ & Hp' & H0 & H1 & H2 & -> & _).
    rewrite He in He'. injection He' as <-.
    rewrite Hp in Hp'. injection Hp' as <-.
    injection H0 as <-. injection H1 as <-. injection H2 as <-.
    cbn [running cluster kubectl].
    split; [exact (differs_from_string_spec (js "Stopped") s0)|].
    split; [exact (equals_string_spec (js "Stopped") s0)|].
    split; reflexivity.
Qed.

(** C2, as the code has it. Once the status command has run, a non-empty
    error output makes [minikubeStatus] raise [Error] with the message
    ["failed to get status: "] followed by that output, whatever the exit
    code and the output; a status is returned exactly when the error output
    is empty and the output is JSON text for a value other than [null],
    again whatever the exit code. *)
Theorem status_success_criterion (w w1 : World) (result : ShellResult) :
  checkPresent Silent w = (Resolved true, w1) ->
  shell_exec (trace w1) (statusCommand (binPath (context w1))) = Exited result ->
  (stderr result <> [] ->
   minikubeStatus w
   = (Rejected (Error (js "failed to get status: " ++ stderr result)),
      log (Exec (statusCommand (binPath (context w1)))) w1))
  /\ ((exists info w', minikubeStatus w = (Resolved info, w'))
      <-> stderr result = []
          /\ exists v, JSON.parse (stdout result) = Some v /\ v <> JSNull).
Proof.
  intros Hc He. pose proof (checkPresent_true _ _ _ Hc) as Hf.
  rewrite (minikubeStatus_after_check w w1 Hc). split; [|split].
  - intros Hs. now apply minikubeStatus_stderr.
  - intros (info & w' & H).
    apply (minikubeStatus_resolved w1 Hf) in H
      as (result' & v & o0 & o1 & o2 & He' & Hs & Hp & H0 & _).
    rewrite He in He'. injection He' as <-.
    split; [assumption|]. exists v. split; [assumption|].
    intros ->. discriminate.
  - intros (Hs & v & Hp & Hn).
    pose proof (parse_defined _ _ Hp) as Hu.
    destruct (index_defined v 0 Hn Hu) as [o0 H0].
    destruct (index_defined v 1 Hn Hu) as [o1 H1].
    destruct (index_defined v 2 Hn Hu) as [o2 H2].
    eexists _, _.
    now apply (minikubeStatus_parsed w1 Hf result v o0 o1 o2).
Qed.

(** C3, as the code has it. With an empty error output, [minikubeStatus]
    raises the [SyntaxError] of [JSON.parse] when the output is not JSON
    text and a [TypeError] when it is the text [null]; on every other
    value, of whatever shape or length, it checks nothing and returns a
    status built from the value's members 0, 1 and 2, [undefined] where
    one is missing. *)
Theorem status_of_unexpected_stdout (w w1 : World) (result : ShellResult) :
  checkPresent Silent w = (Resolved true, w1) ->
  shell_exec (trace w1) (statusCommand (binPath (context w1))) = Exited result ->
  stderr result = [] ->
  let after := log (Exec (statusCommand (binPath (context w1)))) w1 in
  (JSON.parse (stdout result) = None ->
   minikubeStatus w = (Rejected SyntaxError, after))
  /\ (JSON.parse (stdout result) = Some JSNull ->
      minikubeStatus w = (Rejected TypeError, after))
  /\ (forall v,
        JSON.parse (stdout result) = Some v ->
        v <> JSNull ->
        exists o0 o1 o2,
          index v 0 = Resolved o0
          /\ index v 1 = Resolved o1
          /\ index v 2 = Resolved o2
          /\ minikubeStatus w
             = (Resolved {| running := differs_from_string (js "Stopped") o0;
                            cluster := o1;
                            kubectl := o2 |}, after)).
Proof.
  intros Hc He Hs after. pose proof (checkPresent_true _ _ _ Hc) as Hf.
  rewrite (minikubeStatus_after_check w w1 Hc). split; [|split].
  - intros Hp. now apply (minikubeStatus_syntax w1 Hf result).
  - intros Hp. now apply (minikubeStatus_null w1 Hf result).
  - intros v Hp Hn. pose proof (parse_defined _ _ Hp) as Hu.
    destruct (index_defined v 0 Hn Hu) as [o0 H0].
    destruct (index_defined v 1 Hn Hu) as [o1 H1].
    destruct (index_defined v 2 Hn Hu) as [o2 H2].
    exists o0, o1, o2. repeat split; try assumption.
    now apply (minikubeStatus_parsed w1 Hf result v o0 o1 o2).
Qed.

(** ** Starting and stopping *)

Lemma bind_run {A B} (m : M A) (k : A -> M B) (w : World) :
  bind m k w
  = match m w with
    | (Resolved a, w') => k a w'
    | (Rejected e, w') => (Rejected e, w')
    end.
Proof. reflexivity. Qed.

(** Fetching the status-bar item, setting its text and showing it. *)
Lemma indicator_then {A} (t : jsstring) (k : M A) (w : World) :
  (getStatusBar ;; item_text t ;; item_show ;; k) w = k (indicating t w).
Proof.
  unfold bind, getStatusBar, item_text, item_show, update_item, modify.
  cbv beta iota. f_equal.
  destruct w as [c [i|] t0 d n]; reflexivity.
Qed.

Lemma last_app (l1 l2 : jsstring) (d : code_unit) :
  l2 <> [] -> last (l1 ++ l2) d = last l2 d.
Proof.
  intros H. induction l1 as [|x l1 IH]; [reflexivity|].
  simpl. rewrite IH. destruct (l1 ++ l2) eqn:E; [|reflexivity].
  apply app_eq_nil in E as [_ ->]. contradiction.
Qed.

(** The status query is no start command and no stop command: it ends in a
    quote, they end in a letter. *)
Lemma statusCommand_last (path : jsstring) : last (statusCommand path) 0%N = 39%N.
Proof. unfold statusCommand. rewrite last_app; [reflexivity|discriminate]. Qed.

Lemma startCommand_last (path : jsstring) (options : MinikubeOptions) :
  last (startCommand path options) 0%N = 116%N.
Proof.
  unfold startCommand, startArguments.
  rewrite last_app; [|discriminate].
  change (js " " ++ startFlags options ++ js " start")
    with ((js " " ++ startFlags options) ++ js " start").
  rewrite last_app; [reflexivity|discriminate].
Qed.

Lemma stopCommand_last (path : jsstring) : last (stopCommand path) 0%N = 112%N.
Proof. unfold stopCommand. rewrite last_app; [reflexivity|discriminate]. Qed.

Lemma statusCommand_not_start (p p' : jsstring) (options : MinikubeOptions) :
  statusCommand p <> startCommand p' options.
Proof.
  intros E. pose proof (statusCommand_last p) as H.
  rewrite E, startCommand_last in H. discriminate.
Qed.

Lemma statusCommand_not_stop (p p' : jsstring) :
  statusCommand p <> stopCommand p'.
Proof.
  intros E. pose proof (statusCommand_last p) as H.
  rewrite E, stopCommand_last in H. discriminate.
Qed.

Lemma startMinikube_absent (options : MinikubeOptions) (w w1 : World) :
  checkPresent Alert w = (Resolved false, w1) ->
  startMinikube options w = (Resolved tt, w1).
Proof. intros H. unfold startMinikube. rewrite bind_run, H. reflexivity. Qed.

Lemma startMinikube_present (options : MinikubeOptions) (w w1 : World) :
  checkPresent Alert w = (Resolved true, w1) ->
  startMinikube options w
  = match minikubeStatus (indicating (js "minikube-starting") w1) with
    | (Resolved status, w2) =>
        if running status then
          (Resolved tt,
           log (ShowWarningMessage (js "Minikube cluster is already started.")) w2)
        else
          let command := startCommand (binPath (context w2)) options in
          (Resolved tt,
           set_detached
             (detached w2 ++ [(StartCompletion, shell_exec (trace w2) command)])
             (log (Exec command) w2))
    | (Rejected e, w2) => (Rejected e, w2)
    end.
Proof.
  intros H. unfold startMinikube. rewrite bind_run, H. cbn [negb].
  rewrite indicator_then, bind_run.
  destruct (minikubeStatus _) as [[status|e] w2]; [|reflexivity].
  destruct (running status); reflexivity.
Qed.

Lemma stopMinikube_absent (w w1 : World) :
  checkPresent Alert w = (Resolved false, w1) ->
  stopMinikube w = (Resolved tt, w1).
Proof. intros H. unfold stopMinikube. rewrite bind_run, H. reflexivity. Qed.

Lemma stopMinikube_present (w w1 : World) :
  checkPresent Alert w = (Resolved true, w1) ->
  stopMinikube w
  = match minikubeStatus (indicating (js "minikube-stopping") w1) with
    | (Resolved status, w2) =>
        if negb (running status) then
          (Resolved tt,
           log (ShowWarningMessage (js "Minikube cluster is already stopped.")) w2)
        else
          let command := stopCommand (binPath (context w2)) in
          (Resolved tt,
           set_detached
             (detached w2 ++ [(StopCompletion, shell_exec (trace w2) command)])
             (log (Exec command) w2))
    | (Rejected e, w2) => (Rejected e, w2)
    end.
Proof.
  intros H. unfold stopMinikube. rewrite bind_run, H. cbn [negb].
  rewrite indicator_then, bind_run.
  destruct (minikubeStatus _) as [[status|e] w2]; [|reflexivity].
  destruct (running status); reflexivity.
Qed.

(** What a precheck that found the cluster in some state has done: asked
    the locator at most, set the indicator, run the status query. *)
Lemma precheck_effects (t : jsstring) (w w1 w2 : World) (info : MinikubeInfo) :
  checkPresent Alert w = (Resolved true, w1) ->
  minikubeStatus (indicating t w1) = (Resolved info, w2) ->
  exists ev,
    trace w2 = trace w ++ ev ++ [Exec (statusCommand (binPath (context w1)))]
    /\ forallb locator_event ev = true
    /\ minikubeStatusBarItem w2 = Some {| text := t; visible := true |}
    /\ detached w2 = detached w
    /\ context w2 = context w1.
Proof.
  intros Hc Hs. pose proof (checkPresent_true _ _ _ Hc) as Hf.
  destruct (checkPresent_cases Alert w)
    as (f & w1' & ev & E & _ & _ & Hd & Ht & Hev & _).
  rewrite Hc in E. injection E as <- <-.
  apply (minikubeStatus_resolved (indicating t w1) Hf) in Hs
    as (_ & _ & _ & _ & _ & _ & _ & _ & _ & _ & _ & _ & ->).
  exists ev. cbn [log indicating set_item trace context minikubeStatusBarItem detached].
  rewrite Ht, <- app_assoc. auto.
Qed.

(** C4, as the code has it. The flags of [start] are [additionalFlags]
    verbatim, followed by [" --vm-driver=<driver> "] only for a non-empty
    [vmDriver]. An empty driver with the flags ["--foo"] gives the argument
    string ["--foo start"], with one blank before [start] and no driver
    flag; the driver ["hyperkit"] without flags gives
    [" --vm-driver=hyperkit  start"]. *)
Theorem start_arguments (options : MinikubeOptions) :
  startFlags options
  = match additionalFlags options with
    | Str flags => flags
    | _ => js ""
    end
    ++ match vmDriver options with
       | Str (c :: driver) => js " --vm-driver=" ++ (c :: driver) ++ js " "
       | _ => js ""
       end
  /\ startArguments {| vmDriver := Str (js "");
                       additionalFlags := Str (js "--foo") |}
     = js "--foo start"
  /\ startArguments {| vmDriver := Str (js "hyperkit");
                       additionalFlags := Str (js "") |}
     = js " --vm-driver=hyperkit  start".
Proof.
  split; [|split; reflexivity].
  destruct options as [[| |[|c d]] [| |[|c' f]]]; unfold startFlags;
    cbn [truthy vmDriver additionalFlags string_of andb List.length Nat.ltb Nat.leb];
    try reflexivity;
    try (change (js "") with (@nil code_unit); now rewrite app_nil_r).
Qed.

(** C5. When the binary is present and the status precheck reports a
    running cluster, [startMinikube] shows the warning and stops: the only
    command it has run is the status query, no start command and no error
    message appear, no continuation is attached, and the status-bar item is
    left shown with the text ["minikube-starting"]. *)
Theorem start_when_running_only_warns
    (options : MinikubeOptions) (w w1 w2 : World) (info : MinikubeInfo) :
  checkPresent Alert w = (Resolved true, w1) ->
  minikubeStatus (indicating (js "minikube-starting") w1) = (Resolved info, w2) ->
  running info = true ->
  exists w' ev,
    startMinikube options w = (Resolved tt, w')
    /\ trace w' = trace w ++ ev
    /\ executed ev = [statusCommand (binPath (context w1))]
    /\ (forall path opts, ~ In (startCommand path opts) (executed ev))
    /\ warnings_shown ev = [js "Minikube cluster is already started."]
    /\ errors_shown ev = []
    /\ minikubeStatusBarItem w'
       = Some {| text := js "minikube-starting"; visible := true |}
    /\ detached w' = detached w.
Proof.
  intros Hc Hs Hr.
  destruct (precheck_effects _ _ _ _ _ Hc Hs) as (ev & Ht & Hev & Hi & Hd & _).
  destruct (locator_events_silent ev Hev) as (Ex & Wa & Er).
  eexists _, (ev ++ [Exec _; ShowWarningMessage _]).
  split; [rewrite (startMinikube_present options w w1 Hc), Hs, Hr; reflexivity|].
  cbn [log trace minikubeStatusBarItem detached].
  rewrite executed_app, warnings_shown_app, errors_shown_app, Ex, Wa, Er.
  cbn [executed warnings_shown errors_shown app].
  split; [rewrite Ht, <- !app_assoc; reflexivity|].
  split; [reflexivity|].
  split; [|auto].
  intros path opts [E|[]]. exact (statusCommand_not_start _ _ _ E).
Qed.

(** C6. When the binary is present and the status precheck reports a
    stopped cluster, [stopMinikube] shows the warning and stops: the only
    command it has run is the status query, and no stop command appears. *)
Theorem stop_when_stopped_only_warns (w w1 w2 : World) (info : MinikubeInfo) :
  checkPresent Alert w = (Resolved true, w1) ->
  minikubeStatus (indicating (js "minikube-stopping") w1) = (Resolved info, w2) ->
  running info = false ->
  exists w' ev,
    stopMinikube w = (Resolved tt, w')
    /\ trace w' = trace w ++ ev
    /\ executed ev = [statusCommand (binPath (context w1))]
    /\ (forall path, ~ In (stopCommand path) (executed ev))
    /\ warnings_shown ev = [js "Minikube cluster is already stopped."]
    /\ errors_shown ev = []
    /\ detached w' = detached w.
Proof.
  intros Hc Hs Hr.
  destruct (precheck_effects _ _ _ _ _ Hc Hs) as (ev & Ht & Hev & Hi & Hd & _).
  destruct (locator_events_silent ev Hev) as (Ex & Wa & Er).
  eexists _, (ev ++ [Exec _; ShowWarningMessage _]).
  split; [rewrite (stopMinikube_present w w1 Hc), Hs, Hr; reflexivity|].
  cbn [log trace minikubeStatusBarItem detached].
  rewrite executed_app, warnings_shown_app, errors_shown_app, Ex, Wa, Er.
  cbn [executed warnings_shown errors_shown app].
  split; [rewrite Ht, <- !app_assoc; reflexivity|].
  split; [reflexivity|].
  split; [|auto].
  intros path [E|[]]. exact (statusCommand_not_stop _ _ E).
Qed.

(** C9, as the code has it. The promise of [startMinikube] or
    [stopMinikube] is rejected exactly when the binary is present and the
    status precheck throws, and then with what the precheck threw. An
    absent binary and any outcome of the launched command, a rejected
    [exec] included, leave it resolved: the command's outcome only waits in
    a continuation whose completion nobody receives. *)
Theorem start_stop_rejection (options : MinikubeOptions) (w : World) (e : JSError) :
  (fst (startMinikube options w) = Rejected e
   <-> exists w1,
         checkPresent Alert w = (Resolved true, w1)
         /\ fst (minikubeStatus (indicating (js "minikube-starting") w1))
            = Rejected e)
  /\ (fst (stopMinikube w) = Rejected e
      <-> exists w1,
            checkPresent Alert w = (Resolved true, w1)
            /\ fst (minikubeStatus (indicating (js "minikube-stopping") w1))
               = Rejected e).
Proof.
  destruct (checkPresent_cases Alert w) as (f & w1 & ev & Hc & _).
  split; split.
  - destruct f.
    + rewrite (startMinikube_present options w w1 Hc). intros H.
      exists w1. split; [assumption|].
      destruct (minikubeStatus _) as [[status|e'] w2].
      * destruct (running status); discriminate.
      * simpl in *. now injection H as ->.
    + rewrite (startMinikube_absent options w w1 Hc). discriminate.
  - intros (w1' & Hc' & H). rewrite Hc in Hc'. injection Hc' as -> <-.
    rewrite (startMinikube_present options w w1 Hc).
    destruct (minikubeStatus _) as [[status|e'] w2]; [discriminate|].
    simpl in *. now injection H as ->.
  - destruct f.
    + rewrite (stopMinikube_present w w1 Hc). intros H.
      exists w1. split; [assumption|].
      destruct (minikubeStatus _) as [[status|e'] w2].
      * destruct (running status); discriminate.
      * simpl in *. now injection H as ->.
    + rewrite (stopMinikube_absent w w1 Hc). discriminate.
  - intros (w1' & Hc' & H). rewrite Hc in Hc'. injection Hc' as -> <-.
    rewrite (stopMinikube_present w w1 Hc).
    destruct (minikubeStatus _) as [[status|e'] w2]; [discriminate|].
    simpl in *. now injection H as ->.
Qed.

(** C10. Additional flags that are left out count as the empty string when
    the command is built; with the driver left out as well, the flags are
    empty, the command is the binary path, two blanks and [start], and that
    is the command [startMinikube] launches once the prechecks have found
    the cluster stopped. *)
Theorem start_without_flags (options : MinikubeOptions) :
  absent (additionalFlags options) ->
  startFlags options
  = startFlags {| vmDriver := vmDriver options; additionalFlags := Str (js "") |}
  /\ (absent (vmDriver options) ->
      startFlags options = js ""
      /\ (forall path, startCommand path options = path ++ js "  start")
      /\ forall w w1 w2 info,
           checkPresent Alert w = (Resolved true, w1) ->
           minikubeStatus (indicating (js "minikube-starting") w1)
           = (Resolved info, w2) ->
           running info = false ->
           exists w',
             startMinikube options w = (Resolved tt, w')
             /\ trace w' = trace w2 ++ [Exec (binPath (context w1) ++ js "  start")]).
Proof.
  intros Ha.
  assert (Hflags : startFlags options
                   = startFlags {| vmDriver := vmDriver options;
                                   additionalFlags := Str (js "") |}).
  { unfold startFlags. destruct Ha as [-> | [-> | ->]]; reflexivity. }
  split; [exact Hflags|]. intros Hv.
  assert (Hempty : startFlags options = js "").
  { rewrite Hflags. unfold startFlags. cbn [vmDriver additionalFlags].
    destruct Hv as [-> | [-> | ->]]; reflexivity. }
  assert (Hcmd : forall path, startCommand path options = path ++ js "  start").
  { intros path. unfold startCommand, startArguments. now rewrite Hempty. }
  split; [exact Hempty|]. split; [exact Hcmd|].
  intros w w1 w2 info Hc Hs Hr.
  destruct (precheck_effects _ _ _ _ _ Hc Hs) as (_ & _ & _ & _ & _ & Hctx).
  eexists. rewrite (startMinikube_present options w w1 Hc), Hs, Hr.
  split; [reflexivity|].
  cbn [log set_detached trace]. now rewrite Hctx, Hcmd.
Qed.

(** ** The presence cache *)

Lemma keeps_ret {A} (a : A) : keeps_presence (ret a).
Proof. intros w H. now split. Qed.

Lemma keeps_throw {A} (e : JSError) : keeps_presence (@throw A e).
Proof. intros w H. now split. Qed.

Lemma keeps_gets {A} (f : World -> A) : keeps_presence (gets f).
Proof. intros w H. now split. Qed.

Lemma keeps_lift {A} (c : Completion A) : keeps_presence (lift c).
Proof. intros w H. now split. Qed.

Lemma keeps_bind {A B} (m : M A) (k : A -> M B) :
  keeps_presence m -> (forall a, keeps_presence (k a)) -> keeps_presence (bind m k).
Proof.
  intros Hm Hk w H. rewrite bind_run.
  destruct (Hm w H) as [Hf Hl]. destruct (m w) as [[a|e] w']; simpl in *.
  - destruct (Hk a w' Hf) as [Hf' Hl']. split; congruence.
  - now split.
Qed.

Lemma keeps_modify (f : World -> World) :
  (forall w, context (f w) = context w) ->
  (forall w, locator_calls (trace (f w)) = locator_calls (trace w)) ->
  keeps_presence (modify f).
Proof. intros Hc Ht w H. simpl. rewrite Hc, Ht. now split. Qed.

Lemma keeps_emit (e : Event) : locator_calls [e] = 0 -> keeps_presence (emit e).
Proof.
  intros He. apply keeps_modify; intros w; [reflexivity|].
  cbn [log trace]. rewrite locator_calls_app, He. apply Nat.add_0_r.
Qed.

Lemma keeps_update_item (f : StatusBarItem -> StatusBarItem) :
  keeps_presence (update_item f).
Proof. apply keeps_modify; reflexivity. Qed.

Lemma keeps_getStatusBar : keeps_presence getStatusBar.
Proof.
  apply keeps_modify; intros w; destruct (minikubeStatusBarItem w); reflexivity.
Qed.

Lemma keeps_checkPresent (mode : CheckPresentMode) : keeps_presence (checkPresent mode).
Proof. intros w H. rewrite (checkPresent_found mode w H). now split. Qed.

Create HintDb presence.
#[local] Hint Resolve keeps_ret keeps_throw keeps_gets keeps_lift keeps_update_item
  keeps_getStatusBar keeps_checkPresent : presence.

(** Breaks a computation into its steps; the locator is the one step that
    the hints do not cover. *)
Ltac keeps :=
  repeat first
    [ solve [auto with presence]
    | apply keeps_emit; reflexivity
    | apply keeps_modify; reflexivity
    | apply keeps_bind; [|intros ?]
    | match goal with
      | |- keeps_presence (if ?b then _ else _) => destruct b
      | |- keeps_presence (match ?x with _ => _ end) => destruct x
      end ].

Lemma keeps_exec (command : jsstring) : keeps_presence (exec command).
Proof. unfold exec. keeps. Qed.

Lemma keeps_exec_detached (command : jsstring) (k : Continuation) :
  keeps_presence (exec_detached command k).
Proof. unfold exec_detached. keeps. Qed.

#[local] Hint Resolve keeps_exec keeps_exec_detached : presence.

Lemma keeps_minikubeStatus : keeps_presence minikubeStatus.
Proof. unfold minikubeStatus, JSON_parse. keeps. Qed.

#[local] Hint Resolve keeps_minikubeStatus : presence.

Lemma keeps_isRunnableMinikube : keeps_presence isRunnableMinikube.
Proof. unfold isRunnableMinikube. keeps. Qed.

Lemma keeps_startMinikube (options : MinikubeOptions) :
  keeps_presence (startMinikube options).
Proof. unfold startMinikube, item_text, item_show. keeps. Qed.

Lemma keeps_stopMinikube : keeps_presence stopMinikube.
Proof. unfold stopMinikube, item_text, item_show. keeps. Qed.

Lemma keeps_startCompleted (outcome : ExecOutcome) :
  keeps_presence (startCompleted outcome).
Proof. unfold startCompleted, item_text, item_hide. keeps. Qed.

Lemma keeps_stopCompleted (outcome : ExecOutcome) :
  keeps_presence (stopCompleted outcome).
Proof. unfold stopCompleted, item_text, item_hide. keeps. Qed.

Lemma perform_keeps (c : Call) (w : World) :
  binFound (context w) = true ->
  binFound (context (perform c w)) = true
  /\ locator_calls (trace (perform c w)) = locator_calls (trace w).
Proof.
  intros H. destruct c; cbn [perform].
  - now apply keeps_checkPresent.
  - now apply keeps_isRunnableMinikube.
  - now apply keeps_startMinikube.
  - now apply keeps_stopMinikube.
  - now apply keeps_minikubeStatus.
  - unfold settle. destruct (detached w) as [|[[|] outcome] rest]; [now split| |].
    + now apply (keeps_startCompleted outcome (set_detached rest w)).
    + now apply (keeps_stopCompleted outcome (set_detached rest w)).
Qed.

Lemma run_keeps (calls : list Call) (w : World) :
  binFound (context w) = true ->
  binFound (context (run calls w)) = true
  /\ locator_calls (trace (run calls w)) = locator_calls (trace w).
Proof.
  revert w. induction calls as [|c calls IH]; intros w H; [now split|].
  cbn [run fold_left]. destruct (perform_keeps c w H) as [Hf Hl].
  destruct (IH (perform c w) Hf) as [Hf' Hl']. fold (run calls (perform c w)).
  split; congruence.
Qed.

Lemma checkPresent_asks (mode : CheckPresentMode) (w : World) :
  binFound (context w) = false ->
  exists found w',
    checkPresent mode w = (Resolved found, w')
    /\ binFound (context w') = found
    /\ locator_calls (trace w') = S (locator_calls (trace w)).
Proof.
  intros H.
  destruct (checkPresent_cases mode w) as (f & w' & ev & E & Hf & _ & _ & Ht & _ & Hn & _).
  exists f, w'. rewrite H in Hn.
  rewrite Ht, locator_calls_app, Hn. repeat split; try assumption. lia.
Qed.

(** C7. Once the flag is set, [checkPresent] returns true and touches
    nothing, and whatever the adapter is asked to do afterwards, the flag
    stays set and the locator is not asked again. While the flag is not set
    every [checkPresent] asks the locator, and its answer is what the flag
    holds afterwards: a run of checks that ends without presence confirmed
    has asked the locator once per check. *)
Theorem presence_cached_one_way :
  (forall mode w,
     binFound (context w) = true -> checkPresent mode w = (Resolved true, w))
  /\ (forall calls w,
        binFound (context w) = true ->
        binFound (context (run calls w)) = true
        /\ locator_calls (trace (run calls w)) = locator_calls (trace w))
  /\ (forall mode w,
        binFound (context w) = false ->
        exists found w',
          checkPresent mode w = (Resolved found, w')
          /\ binFound (context w') = found
          /\ locator_calls (trace w') = S (locator_calls (trace w)))
  /\ (forall modes w,
        binFound (context (run (map CallCheckPresent modes) w)) = false ->
        locator_calls (trace (run (map CallCheckPresent modes) w))
        = locator_calls (trace w) + List.length modes).
Proof.
  split; [exact checkPresent_found|].
  split; [exact run_keeps|].
  split; [exact checkPresent_asks|].
  induction modes as [|mode modes IH]; intros w H; [simpl; lia|].
  cbn [map run fold_left] in *.
  fold (run (map CallCheckPresent modes) (perform (CallCheckPresent mode) w)) in *.
  rewrite (IH _ H). cbn [perform List.length].
  destruct (binFound (context w)) eqn:Hw.
  - destruct (perform_keeps (CallCheckPresent mode) w Hw) as [Hf _].
    destruct (run_keeps (map CallCheckPresent modes) _ Hf) as [Hf' _].
    congruence.
  - destruct (checkPresent_asks mode w Hw) as (f & w' & E & _ & Hl).
    rewrite E. cbn [snd]. lia.
Qed.

(** ** The runnable check *)

(** C8. With the binary absent, [isRunnableMinikube] returns the failure
    that reads ["Minikube is not installed"] and has run no command; with
    the binary present the one command it runs is the binary path followed
    by [" help"], and it returns what the exit-code check makes of the
    result: success for exit code 0 and failure for any other, whatever was
    printed. *)
Theorem runnable_check (w w1 : World) :
  (checkPresent Alert w = (Resolved false, w1) ->
   isRunnableMinikube w
   = (Resolved (Failed [js "Minikube is not installed"]), w1)
   /\ exists ev, trace w1 = trace w ++ ev /\ executed ev = [])
  /\ (checkPresent Alert w = (Resolved true, w1) ->
      forall sr,
        shell_exec (trace w1) (binPath (context w1) ++ js " help") = Exited sr ->
        isRunnableMinikube w
        = (Resolved (fromShellExitCodeOnly sr),
           log (Exec (binPath (context w1) ++ js " help")) w1)
        /\ (exists ev,
              trace (snd (isRunnableMinikube w)) = trace w ++ ev
              /\ executed ev = [binPath (context w1) ++ js " help"])
        /\ (succeeded (fromShellExitCodeOnly sr) = true <-> code sr = 0%Z)
        /\ (succeeded (fromShellExitCodeOnly sr) = false <-> code sr <> 0%Z)
        /\ (forall sr',
              code sr' = code sr ->
              succeeded (fromShellExitCodeOnly sr')
              = succeeded (fromShellExitCodeOnly sr))).
Proof.
  destruct (checkPresent_cases Alert w)
    as (f & w' & ev & E & _ & _ & _ & Ht & Hev & _).
  destruct (locator_events_silent ev Hev) as (Ex & _ & _).
  split.
  - intros Hc. rewrite Hc in E. injection E as <- <-. split.
    + unfold isRunnableMinikube. rewrite bind_run, Hc. reflexivity.
    + exists ev. split; assumption.
  - intros Hc sr He. rewrite Hc in E. injection E as <- <-.
    assert (Hrun : isRunnableMinikube w
                   = (Resolved (fromShellExitCodeOnly sr),
                      log (Exec (binPath (context w1) ++ js " help")) w1)).
    { unfold isRunnableMinikube. rewrite bind_run, Hc. cbn [negb].
      unfold exec, helpCommand, bind, gets, emit, modify, ret. cbv beta iota.
      now rewrite He. }
    split; [exact Hrun|]. split.
    + rewrite Hrun. cbn [snd log trace].
      exists (ev ++ [Exec (binPath (context w1) ++ js " help")]).
      rewrite executed_app, Ex, Ht, <- app_assoc. split; reflexivity.
    + unfold fromShellExitCodeOnly. split; [|split].
      * destruct (code sr =? 0)%Z eqn:E; cbn [succeeded].
        -- apply Z.eqb_eq in E. split; congruence.
        -- apply Z.eqb_neq in E. split; congruence.
      * destruct (code sr =? 0)%Z eqn:E; cbn [succeeded].
        -- apply Z.eqb_eq in E. split; congruence.
        -- apply Z.eqb_neq in E. split; congruence.
      * intros sr' Hcode. rewrite Hcode.
        destruct (code sr =? 0)%Z; reflexivity.
Qed.

(** ** More on the status query *)

Lemma infos_shown_app (a b : list Event) :
  infos_shown (a ++ b) = infos_shown a ++ infos_shown b.
Proof.
  induction a as [|e a IH]; [reflexivity|].
  destruct e; simpl; now rewrite IH.
Qed.

Lemma alerting_calls_app (a b : list Event) :
  alerting_calls (a ++ b) = alerting_calls a + alerting_calls b.
Proof.
  induction a as [|e a IH]; [reflexivity|].
  destruct e as [| ? ? [|] | | | |]; simpl; now rewrite IH.
Qed.

Lemma locator_events_no_info (ev : list Event) :
  forallb locator_event ev = true -> infos_shown ev = [].
Proof.
  induction ev as [|e ev IH]; [reflexivity|].
  simpl. intros H. apply andb_true_iff in H as [He Hev].
  destruct e; try discriminate; simpl; auto.
Qed.

(** What a presence check that has to ask does: it asks the locator for
    [minikube], with the path configured under
    [vs-kubernetes.minikube-path], and wants an alert exactly in mode
    [Alert]. *)
Lemma checkPresent_events (mode : CheckPresentMode) (w : World) :
  binFound (context w) = false ->
  exists found w' more,
    checkPresent mode w = (Resolved found, w')
    /\ trace w'
       = trace w
         ++ Locate (getConfiguration (trace w) (js "vs-kubernetes")
                      (js "vs-kubernetes.minikube-path"))
                   (js "minikube")
                   (match mode with Alert => true | Silent => false end)
            :: more
    /\ (more = [] \/ (mode = Alert /\ exists m, more = [AlertUser m])).
Proof.
  intros Hf. rewrite checkPresent_missing by assumption.
  unfold checkForMinikubeInternal, checkForBinary, bind, gets, emit, modify, ret.
  cbv beta iota.
  destruct (locate_binary (trace w) _ _) as [path|].
  - eexists true, _, []. split; [reflexivity|]. split; [reflexivity|now left].
  - destruct mode; cbv beta iota.
    + eexists false, _, [_]. split; [reflexivity|].
      split; [cbn [log trace]; rewrite <- app_assoc; reflexivity|].
      right. split; [reflexivity|]. eexists. reflexivity.
    + eexists false, _, []. split; [reflexivity|]. split; [reflexivity|now left].
Qed.

(** All that a status query leaves behind. *)
Lemma minikubeStatus_effects (w : World) :
  exists ev0,
    forallb locator_event ev0 = true
    /\ alerting_calls ev0 = 0
    /\ minikubeStatusBarItem (snd (minikubeStatus w)) = minikubeStatusBarItem w
    /\ detached (snd (minikubeStatus w)) = detached w
    /\ ((fst (minikubeStatus w)
         = Rejected (Error (js "minikube executable could not be found!"))
         /\ trace (snd (minikubeStatus w)) = trace w ++ ev0
         /\ binFound (context (snd (minikubeStatus w))) = false)
        \/ (trace (snd (minikubeStatus w))
            = trace w ++ ev0
              ++ [Exec (statusCommand (binPath (context (snd (minikubeStatus w)))))]
            /\ binFound (context (snd (minikubeStatus w))) = true)).
Proof.
  destruct (binFound (context w)) eqn:Hf.
  - exists []. rewrite (minikubeStatus_world w Hf).
    repeat split. right. split; [reflexivity|exact Hf].
  - destruct (checkPresent_events Silent w Hf) as (f & w1 & more & Hc & Ht & Hm).
    destruct Hm as [-> | [Hmode _]]; [|discriminate].
    destruct (checkPresent_cases Silent w)
      as (f' & w1' & ev & Hc' & Hf1 & Hi & Hd & _).
    rewrite Hc in Hc'. injection Hc' as <- <-.
    exists [Locate (getConfiguration (trace w) (js "vs-kubernetes")
                      (js "vs-kubernetes.minikube-path")) (js "minikube") false].
    split; [reflexivity|]. split; [reflexivity|].
    destruct f.
    + rewrite (minikubeStatus_after_check w w1 Hc), (minikubeStatus_world w1 Hf1).
      split; [exact Hi|]. split; [exact Hd|]. right.
      cbn [log trace context]. rewrite Ht, <- app_assoc. split; [reflexivity|exact Hf1].
    + rewrite (minikubeStatus_absent w w1 Hc). cbn [fst snd].
      split; [exact Hi|]. split; [exact Hd|]. left.
      split; [reflexivity|]. split; [exact Ht|exact Hf1].
Qed.

(** X1. Without the binary the status query throws
    ["minikube executable could not be found!"]; it has run no command and
    has not asked the locator for an alert. *)
Theorem status_without_binary (w w1 : World) :
  checkPresent Silent w = (Resolved false, w1) ->
  minikubeStatus w
  = (Rejected (Error (js "minikube executable could not be found!")), w1)
  /\ exists ev,
       trace w1 = trace w ++ ev
       /\ executed ev = []
       /\ locator_calls ev = 1
       /\ alerting_calls ev = 0.
Proof.
  intros Hc. split; [now apply minikubeStatus_absent|].
  destruct (binFound (context w)) eqn:Hf.
  - rewrite (checkPresent_found Silent w Hf) in Hc. discriminate.
  - destruct (checkPresent_events Silent w Hf) as (f & w1' & more & Hc' & Ht & Hm).
    rewrite Hc in Hc'. injection Hc' as <- <-.
    destruct Hm as [-> | [Hmode _]]; [|discriminate].
    eexists. split; [exact Ht|]. repeat split.
Qed.

(** X2. When the shell cannot run the status command, the status query is
    rejected with what the shell threw, after that one command. *)
Theorem status_exec_failure (w w1 : World) (err : jsstring) :
  checkPresent Silent w = (Resolved true, w1) ->
  shell_exec (trace w1) (statusCommand (binPath (context w1))) = Threw err ->
  minikubeStatus w
  = (Rejected (Reason err), log (Exec (statusCommand (binPath (context w1)))) w1).
Proof.
  intros Hc He. rewrite (minikubeStatus_after_check w w1 Hc).
  apply minikubeStatus_threw; [exact (checkPresent_true _ _ _ Hc)|exact He].
Qed.

(** X3. Whatever comes of it, a status query shows no message, leaves the
    status-bar item and the pending continuations alone, never asks the
    locator for an alert, and runs at most one command: the status command
    of the binary path it ends with. *)
Theorem status_only_queries (w : World) :
  let after := snd (minikubeStatus w) in
  exists ev,
    trace after = trace w ++ ev
    /\ (executed ev = []
        \/ executed ev = [statusCommand (binPath (context after))])
    /\ infos_shown ev = []
    /\ warnings_shown ev = []
    /\ errors_shown ev = []
    /\ alerting_calls ev = 0
    /\ minikubeStatusBarItem after = minikubeStatusBarItem w
    /\ detached after = detached w.
Proof.
  intros after. subst after.
  destruct (minikubeStatus_effects w) as (ev0 & Hev & Ha & Hi & Hd & H).
  destruct (locator_events_silent ev0 Hev) as (Ex & Wa & Er).
  pose proof (locator_events_no_info ev0 Hev) as In.
  destruct H as [(_ & Ht & _) | (Ht & _)].
  - exists ev0. repeat split; auto.
  - eexists (ev0 ++ [Exec _]). split; [exact Ht|].
    rewrite executed_app, infos_shown_app, warnings_shown_app, errors_shown_app,
      alerting_calls_app, Ex, Wa, Er, In, Ha.
    repeat split; auto.
Qed.

Lemma differs_false_iff (lit : jsstring) (v : JSValue) :
  differs_from_string lit v = false <-> v = JSString lit.
Proof.
  destruct v; simpl; try (split; discriminate).
  rewrite negb_false_iff, jsstring_eqb_eq. split; congruence.
Qed.

(** X4. A returned status says that the cluster is not running only when
    the output was an array that begins with the string ["Stopped"] or an
    object whose member [0] is that string; a string, a number or a boolean
    on its own always counts as running. *)
Theorem status_stopped_shape
    (w w1 w' : World) (result : ShellResult) (v : JSValue) (info : MinikubeInfo) :
  checkPresent Silent w = (Resolved true, w1) ->
  shell_exec (trace w1) (statusCommand (binPath (context w1))) = Exited result ->
  JSON.parse (stdout result) = Some v ->
  minikubeStatus w = (Resolved info, w') ->
  running info = false
  <-> (exists rest, v = JSArray (JSString (js "Stopped") :: rest))
      \/ (exists ms, v = JSObject ms
                     /\ lookup_member (js "0") ms = JSString (js "Stopped")).
Proof.
  intros Hc He Hp Hs. pose proof (checkPresent_true _ _ _ Hc) as Hf.
  rewrite (minikubeStatus_after_check w w1 Hc) in Hs.
  apply (minikubeStatus_resolved w1 Hf) in Hs
    as (result' & v' & o0 & o1 & o2 & He' & _ & Hp' & H0 & _ & _ & -> & _).
  rewrite He in He'. injection He' as <-.
  rewrite Hp in Hp'. injection Hp' as <-.
  cbn [running]. rewrite differs_false_iff.
  destruct v as [| | b | n | s | vs | ms]; try discriminate H0.
  - injection H0 as <-.
    split; [discriminate | intros [[r E] | (m & E & _)]; discriminate E].
  - injection H0 as <-.
    split; [discriminate | intros [[r E] | (m & E & _)]; discriminate E].
  - split; [|intros [[r E] | (m & E & _)]; discriminate E].
    destruct s as [|c s]; simpl in H0; injection H0 as <-; discriminate.
  - destruct vs as [|v0 rest]; simpl in H0; injection H0 as <-.
    + split; [discriminate | intros [[r E] | (m & E & _)]; discriminate E].
    + split.
      * intros ->. left. now exists rest.
      * intros [[r E] | (m & E & _)]; [|discriminate E].
        now injection E as -> _.
  - injection H0 as <-. split.
    + intros E. right. exists ms. split; [reflexivity|exact E].
    + intros [[r E] | (m & E & El)]; [discriminate E|].
      injection E as <-. exact El.
Qed.

(** ** Launching and finishing *)

Lemma startMinikube_launches
    (options : MinikubeOptions) (w w1 w2 : World) (info : MinikubeInfo) :
  checkPresent Alert w = (Resolved true, w1) ->
  minikubeStatus (indicating (js "minikube-starting") w1) = (Resolved info, w2) ->
  running info = false ->
  let command := startCommand (binPath (context w1)) options in
  startMinikube options w
  = (Resolved tt,
     set_detached (detached w2 ++ [(StartCompletion, shell_exec (trace w2) command)])
       (log (Exec command) w2)).
Proof.
  intros Hc Hs Hr command. subst command.
  destruct (precheck_effects _ _ _ _ _ Hc Hs) as (_ & _ & _ & _ & _ & Hctx).
  rewrite (startMinikube_present options w w1 Hc), Hs, Hr.
  cbv zeta. now rewrite Hctx.
Qed.

Lemma stopMinikube_launches (w w1 w2 : World) (info : MinikubeInfo) :
  checkPresent Alert w = (Resolved true, w1) ->
  minikubeStatus (indicating (js "minikube-stopping") w1) = (Resolved info, w2) ->
  running info = true ->
  let command := stopCommand (binPath (context w1)) in
  stopMinikube w
  = (Resolved tt,
     set_detached (detached w2 ++ [(StopCompletion, shell_exec (trace w2) command)])
       (log (Exec command) w2)).
Proof.
  intros Hc Hs Hr command. subst command.
  destruct (precheck_effects _ _ _ _ _ Hc Hs) as (_ & _ & _ & _ & _ & Hctx).
  rewrite (stopMinikube_present w w1 Hc), Hs, Hr.
  cbv zeta. now rewrite Hctx.
Qed.

(** X5. When the binary is present and the precheck finds the cluster
    stopped, [startMinikube] runs the status query and then the start
    command built from the options, shows no message yet, leaves the item
    shown as ["minikube-starting"], attaches one continuation that holds the
    outcome of the start command, and resolves. *)
Theorem start_launches
    (options : MinikubeOptions) (w w1 w2 : World) (info : MinikubeInfo) :
  checkPresent Alert w = (Resolved true, w1) ->
  minikubeStatus (indicating (js "minikube-starting") w1) = (Resolved info, w2) ->
  running info = false ->
  let command := startCommand (binPath (context w1)) options in
  exists w' ev,
    startMinikube options w = (Resolved tt, w')
    /\ trace w' = trace w ++ ev
    /\ executed ev = [statusCommand (binPath (context w1)); command]
    /\ infos_shown ev = []
    /\ warnings_shown ev = []
    /\ errors_shown ev = []
    /\ minikubeStatusBarItem w'
       = Some {| text := js "minikube-starting"; visible := true |}
    /\ detached w'
       = detached w ++ [(StartCompletion, shell_exec (trace w2) command)].
Proof.
  intros Hc Hs Hr command.
  destruct (precheck_effects _ _ _ _ _ Hc Hs) as (ev & Ht & Hev & Hi & Hd & _).
  destruct (locator_events_silent ev Hev) as (Ex & Wa & Er).
  pose proof (locator_events_no_info ev Hev) as In.
  eexists _, (ev ++ [Exec _; Exec command]).
  split; [exact (startMinikube_launches options w w1 w2 info Hc Hs Hr)|].
  cbn [log set_detached trace minikubeStatusBarItem detached].
  rewrite executed_app, infos_shown_app, warnings_shown_app, errors_shown_app,
    Ex, Wa, Er, In, Hd.
  split; [rewrite Ht, <- !app_assoc; reflexivity|].
  repeat split. exact Hi.
Qed.

(** X6. When the binary is present and the precheck finds the cluster
    running, [stopMinikube] runs the status query and then the stop command,
    shows no message yet, leaves the item shown as ["minikube-stopping"],
    attaches one continuation and resolves. *)
Theorem stop_launches (w w1 w2 : World) (info : MinikubeInfo) :
  checkPresent Alert w = (Resolved true, w1) ->
  minikubeStatus (indicating (js "minikube-stopping") w1) = (Resolved info, w2) ->
  running info = true ->
  let command := stopCommand (binPath (context w1)) in
  exists w' ev,
    stopMinikube w = (Resolved tt, w')
    /\ trace w' = trace w ++ ev
    /\ executed ev = [statusCommand (binPath (context w1)); command]
    /\ infos_shown ev = []
    /\ warnings_shown ev = []
    /\ errors_shown ev = []
    /\ minikubeStatusBarItem w'
       = Some {| text := js "minikube-stopping"; visible := true |}
    /\ detached w'
       = detached w ++ [(StopCompletion, shell_exec (trace w2) command)].
Proof.
  intros Hc Hs Hr command.
  destruct (precheck_effects _ _ _ _ _ Hc Hs) as (ev & Ht & Hev & Hi & Hd & _).
  destruct (locator_events_silent ev Hev) as (Ex & Wa & Er).
  pose proof (locator_events_no_info ev Hev) as In.
  eexists _, (ev ++ [Exec _; Exec command]).
  split; [exact (stopMinikube_launches w w1 w2 info Hc Hs Hr)|].
  cbn [log set_detached trace minikubeStatusBarItem detached].
  rewrite executed_app, infos_shown_app, warnings_shown_app, errors_shown_app,
    Ex, Wa, Er, In, Hd.
  split; [rewrite Ht, <- !app_assoc; reflexivity|].
  repeat split. exact Hi.
Qed.

(** X7. A start that was launched with nothing else pending, and then
    finishes: exit code 0 shows ["Cluster started."] and turns the item,
    still shown, to ["minikube-running"]; any other exit code shows
    ["Failed to start cluster "] with the error output and hides the item; a
    command that could not be run shows ["Failed to start cluster: "] with
    the reason and hides the item. Nothing is left pending. *)
Theorem start_then_finishes
    (options : MinikubeOptions) (w w1 w2 : World) (info : MinikubeInfo) :
  detached w = [] ->
  checkPresent Alert w = (Resolved true, w1) ->
  minikubeStatus (indicating (js "minikube-starting") w1) = (Resolved info, w2) ->
  running info = false ->
  let launched := snd (startMinikube options w) in
  let finished := settle launched in
  detached finished = []
  /\ match shell_exec (trace w2) (startCommand (binPath (context w1)) options) with
     | Exited result =>
         if (code result =? 0)%Z then
           trace finished
           = trace launched ++ [ShowInformationMessage (js "Cluster started.")]
           /\ minikubeStatusBarItem finished
              = Some {| text := js "minikube-running"; visible := true |}
         else
           trace finished
           = trace launched
             ++ [ShowErrorMessage (js "Failed to start cluster " ++ stderr result)]
           /\ minikubeStatusBarItem finished
              = Some {| text := js "minikube-starting"; visible := false |}
     | Threw err =>
         trace finished
         = trace launched ++ [ShowErrorMessage (js "Failed to start cluster: " ++ err)]
         /\ minikubeStatusBarItem finished
            = Some {| text := js "minikube-starting"; visible := false |}
     end.
Proof.
  intros Hd0 Hc Hs Hr launched finished. subst finished launched.
  destruct (precheck_effects _ _ _ _ _ Hc Hs) as (ev & _ & _ & Hi & Hd & _).
  rewrite (startMinikube_launches options w w1 w2 info Hc Hs Hr).
  cbn [snd]. unfold settle. cbn [set_detached detached].
  rewrite Hd, Hd0. cbn [app].
  destruct (shell_exec (trace w2) _) as [result|err]; cbn [startCompleted].
  - destruct (code result =? 0)%Z;
      unfold bind, emit, item_text, item_hide, update_item, modify;
      cbn [snd log set_item set_detached trace detached minikubeStatusBarItem
           context];
      rewrite Hi; repeat split.
  - unfold bind, emit, item_text, item_hide, update_item, modify;
      cbn [snd log set_item set_detached trace detached minikubeStatusBarItem
           context];
      rewrite Hi; repeat split.
Qed.

(** X8. A stop that was launched with nothing else pending, and then
    finishes: the item is hidden whatever the outcome; exit code 0 shows
    ["Cluster stopped."], any other exit code ["Error stopping cluster "]
    with the error output, and a command that could not be run
    ["Error stopping cluster: "] with the reason. *)
Theorem stop_then_finishes (w w1 w2 : World) (info : MinikubeInfo) :
  detached w = [] ->
  checkPresent Alert w = (Resolved true, w1) ->
  minikubeStatus (indicating (js "minikube-stopping") w1) = (Resolved info, w2) ->
  running info = true ->
  let launched := snd (stopMinikube w) in
  let finished := settle launched in
  detached finished = []
  /\ minikubeStatusBarItem finished
     = Some {| text := js "minikube-stopping"; visible := false |}
  /\ trace finished
     = trace launched
       ++ [match shell_exec (trace w2) (stopCommand (binPath (context w1))) with
           | Exited result =>
               if (code result =? 0)%Z
               then ShowInformationMessage (js "Cluster stopped.")
               else ShowErrorMessage (js "Error stopping cluster " ++ stderr result)
           | Threw err =>
               ShowErrorMessage (js "Error stopping cluster: " ++ err)
           end].
Proof.
  intros Hd0 Hc Hs Hr launched finished. subst finished launched.
  destruct (precheck_effects _ _ _ _ _ Hc Hs) as (ev & _ & _ & Hi & Hd & _).
  rewrite (stopMinikube_launches w w1 w2 info Hc Hs Hr).
  cbn [snd]. unfold settle. cbn [set_detached detached].
  rewrite Hd, Hd0. cbn [app].
  destruct (shell_exec (trace w2) _) as [result|err]; cbn [stopCompleted].
  - destruct (code result =? 0)%Z;
      unfold bind, emit, item_hide, update_item, modify;
      cbn [snd log set_item set_detached trace detached minikubeStatusBarItem
           context];
      rewrite Hi; repeat split.
  - unfold bind, emit, item_hide, update_item, modify;
      cbn [snd log set_item set_detached trace detached minikubeStatusBarItem
           context];
      rewrite Hi; repeat split.
Qed.

(** ** A whole call, whatever comes of it *)

Lemma precheck_world (t : jsstring) (w1 : World) :
  binFound (context w1) = true ->
  snd (minikubeStatus (indicating t w1))
  = log (Exec (statusCommand (binPath (context w1)))) (indicating t w1).
Proof. intros Hf. now rewrite (minikubeStatus_world (indicating t w1) Hf). Qed.

Lemma startMinikube_world (options : MinikubeOptions) (w w1 : World) (f : bool) :
  checkPresent Alert w = (Resolved f, w1) ->
  let after := snd (startMinikube options w) in
  let p := binPath (context w1) in
  context after = context w1
  /\ exists more,
       trace after = trace w1 ++ more
       /\ ((f = false /\ more = [])
           \/ (f = true
               /\ exists tail,
                    more = Exec (statusCommand p) :: tail
                    /\ (tail = []
                        \/ tail = [ShowWarningMessage
                                     (js "Minikube cluster is already started.")]
                        \/ tail = [Exec (startCommand p options)]))).
Proof.
  intros Hc after p. subst after p. destruct f.
  - pose proof (checkPresent_true _ _ _ Hc) as Hf.
    pose proof (precheck_world (js "minikube-starting") w1 Hf) as Hw.
    rewrite (startMinikube_present options w w1 Hc).
    destruct (minikubeStatus _) as [[status|e] w2]; cbn [snd] in *; subst w2.
    + destruct (running status); cbv zeta; cbn [snd log set_detached indicating
        set_item trace context].
      * split; [reflexivity|]. eexists. rewrite <- app_assoc.
        split; [reflexivity|]. right. split; [reflexivity|].
        eexists. split; [reflexivity|]. right. now left.
      * split; [reflexivity|]. eexists. rewrite <- app_assoc.
        split; [reflexivity|]. right. split; [reflexivity|].
        eexists. split; [reflexivity|]. right. now right.
    + cbn [log indicating set_item trace context].
      split; [reflexivity|]. eexists. split; [reflexivity|].
      right. split; [reflexivity|]. eexists. split; [reflexivity|]. now left.
  - rewrite (startMinikube_absent options w w1 Hc). cbn [snd].
    split; [reflexivity|]. exists []. rewrite app_nil_r.
    split; [reflexivity|]. now left.
Qed.

Lemma stopMinikube_world (w w1 : World) (f : bool) :
  checkPresent Alert w = (Resolved f, w1) ->
  let after := snd (stopMinikube w) in
  let p := binPath (context w1) in
  context after = context w1
  /\ exists more,
       trace after = trace w1 ++ more
       /\ ((f = false /\ more = [])
           \/ (f = true
               /\ exists tail,
                    more = Exec (statusCommand p) :: tail
                    /\ (tail = []
                        \/ tail = [ShowWarningMessage
                                     (js "Minikube cluster is already stopped.")]
                        \/ tail = [Exec (stopCommand p)]))).
Proof.
  intros Hc after p. subst after p. destruct f.
  - pose proof (checkPresent_true _ _ _ Hc) as Hf.
    pose proof (precheck_world (js "minikube-stopping") w1 Hf) as Hw.
    rewrite (stopMinikube_present w w1 Hc).
    destruct (minikubeStatus _) as [[status|e] w2]; cbn [snd] in *; subst w2.
    + destruct (running status); cbv zeta; cbn [negb snd log set_detached indicating
        set_item trace context].
      * split; [reflexivity|]. eexists. rewrite <- app_assoc.
        split; [reflexivity|]. right. split; [reflexivity|].
        eexists. split; [reflexivity|]. right. now right.
      * split; [reflexivity|]. eexists. rewrite <- app_assoc.
        split; [reflexivity|]. right. split; [reflexivity|].
        eexists. split; [reflexivity|]. right. now left.
    + cbn [log indicating set_item trace context].
      split; [reflexivity|]. eexists. split; [reflexivity|].
      right. split; [reflexivity|]. eexists. split; [reflexivity|]. now left.
  - rewrite (stopMinikube_absent w w1 Hc). cbn [snd].
    split; [reflexivity|]. exists []. rewrite app_nil_r.
    split; [reflexivity|]. now left.
Qed.

(** X9. When the binary is present and the status query of the precheck
    throws, [startMinikube] and [stopMinikube] stop there: the error goes to
    the caller, the item stays shown with the text set before the query, no
    message is shown, and the status query is the only command run. *)
Theorem precheck_failure_leaves_indicator
    (options : MinikubeOptions) (w w1 : World) :
  checkPresent Alert w = (Resolved true, w1) ->
  (forall e w2,
     minikubeStatus (indicating (js "minikube-starting") w1) = (Rejected e, w2) ->
     startMinikube options w = (Rejected e, w2)
     /\ minikubeStatusBarItem w2
        = Some {| text := js "minikube-starting"; visible := true |}
     /\ detached w2 = detached w
     /\ exists ev,
          trace w2 = trace w ++ ev
          /\ executed ev = [statusCommand (binPath (context w1))]
          /\ infos_shown ev = [] /\ warnings_shown ev = [] /\ errors_shown ev = [])
  /\ (forall e w2,
        minikubeStatus (indicating (js "minikube-stopping") w1) = (Rejected e, w2) ->
        stopMinikube w = (Rejected e, w2)
        /\ minikubeStatusBarItem w2
           = Some {| text := js "minikube-stopping"; visible := true |}
        /\ detached w2 = detached w
        /\ exists ev,
             trace w2 = trace w ++ ev
             /\ executed ev = [statusCommand (binPath (context w1))]
             /\ infos_shown ev = [] /\ warnings_shown ev = [] /\ errors_shown ev = []).
Proof.
  intros Hc. pose proof (checkPresent_true _ _ _ Hc) as Hf.
  destruct (checkPresent_cases Alert w)
    as (f & w1' & ev0 & Hc' & _ & Hi & Hd & Ht & Hev & _).
  rewrite Hc in Hc'. injection Hc' as <- <-.
  destruct (locator_events_silent ev0 Hev) as (Ex & Wa & Er).
  pose proof (locator_events_no_info ev0 Hev) as In.
  split; intros e w2 Hs.
  - pose proof (precheck_world (js "minikube-starting") w1 Hf) as Hw.
    rewrite Hs in Hw. cbn [snd] in Hw. subst w2.
    split; [now rewrite (startMinikube_present options w w1 Hc), Hs|].
    split; [reflexivity|]. split; [exact Hd|].
    exists (ev0 ++ [Exec (statusCommand (binPath (context w1)))]).
    cbn [log indicating set_item trace].
    rewrite executed_app, infos_shown_app, warnings_shown_app, errors_shown_app,
      Ex, Wa, Er, In, Ht, <- app_assoc.
    repeat split.
  - pose proof (precheck_world (js "minikube-stopping") w1 Hf) as Hw.
    rewrite Hs in Hw. cbn [snd] in Hw. subst w2.
    split; [now rewrite (stopMinikube_present w w1 Hc), Hs|].
    split; [reflexivity|]. split; [exact Hd|].
    exists (ev0 ++ [Exec (statusCommand (binPath (context w1)))]).
    cbn [log indicating set_item trace].
    rewrite executed_app, infos_shown_app, warnings_shown_app, errors_shown_app,
      Ex, Wa, Er, In, Ht, <- app_assoc.
    repeat split.
Qed.

Lemma isRunnableMinikube_world (w w1 : World) (f : bool) :
  checkPresent Alert w = (Resolved f, w1) ->
  let after := snd (isRunnableMinikube w) in
  context after = context w1
  /\ minikubeStatusBarItem after = minikubeStatusBarItem w1
  /\ detached after = detached w1
  /\ trace after
     = trace w1 ++ (if f then [Exec (helpCommand (binPath (context w1)))] else []).
Proof.
  intros Hc after. subst after.
  unfold isRunnableMinikube. rewrite bind_run, Hc. destruct f; cbn [negb].
  - unfold exec, bind, gets, emit, modify, ret, throw. cbv beta iota.
    destruct (shell_exec (trace w1) _); repeat split.
  - cbn [ret snd]. rewrite app_nil_r. repeat split.
Qed.

(** X10. With the binary absent, [startMinikube] and [stopMinikube] resolve
    in the world that the presence check left: the locator was asked once,
    with an alert wanted; no command was run, no message of the adapter
    shown, and the status-bar item neither created nor changed. *)
Theorem start_stop_without_binary (options : MinikubeOptions) (w w1 : World) :
  checkPresent Alert w = (Resolved false, w1) ->
  startMinikube options w = (Resolved tt, w1)
  /\ stopMinikube w = (Resolved tt, w1)
  /\ minikubeStatusBarItem w1 = minikubeStatusBarItem w
  /\ detached w1 = detached w
  /\ exists ev,
       trace w1 = trace w ++ ev
       /\ executed ev = []
       /\ infos_shown ev = [] /\ warnings_shown ev = [] /\ errors_shown ev = []
       /\ locator_calls ev = 1
       /\ alerting_calls ev = 1.
Proof.
  intros Hc.
  split; [now apply startMinikube_absent|]. split; [now apply stopMinikube_absent|].
  destruct (binFound (context w)) eqn:Hf.
  { rewrite (checkPresent_found Alert w Hf) in Hc. discriminate. }
  destruct (checkPresent_cases Alert w)
    as (f & w1' & ev0 & Hc' & _ & Hi & Hd & _).
  rewrite Hc in Hc'. injection Hc' as <- <-.
  split; [exact Hi|]. split; [exact Hd|].
  destruct (checkPresent_events Alert w Hf) as (f & w1' & more & Hc' & Ht & Hm).
  rewrite Hc in Hc'. injection Hc' as <- <-.
  eexists. split; [exact Ht|].
  destruct Hm as [-> | (_ & m & ->)]; repeat split.
Qed.

(** X13. An adapter that has not found its binary asks the locator first
    thing, for [minikube] and with the path configured under
    [vs-kubernetes.minikube-path]: without an alert from the status query,
    with one from start, stop and the runnable check. *)
Theorem locator_asked_as_caller_wants (options : MinikubeOptions) (w : World) :
  binFound (context w) = false ->
  let ask alert :=
    Locate (getConfiguration (trace w) (js "vs-kubernetes")
              (js "vs-kubernetes.minikube-path"))
           (js "minikube") alert in
  (exists rest, trace (snd (minikubeStatus w)) = trace w ++ ask false :: rest)
  /\ (exists rest, trace (snd (startMinikube options w)) = trace w ++ ask true :: rest)
  /\ (exists rest, trace (snd (stopMinikube w)) = trace w ++ ask true :: rest)
  /\ (exists rest, trace (snd (isRunnableMinikube w)) = trace w ++ ask true :: rest).
Proof.
  intros Hf ask. subst ask.
  destruct (checkPresent_events Silent w Hf) as (fs & ws & ms & Hcs & Hts & _).
  destruct (checkPresent_events Alert w Hf) as (fa & wa & ma & Hca & Hta & _).
  split; [|split; [|split]].
  - destruct fs.
    + rewrite (minikubeStatus_after_check w ws Hcs),
        (minikubeStatus_world ws (checkPresent_true _ _ _ Hcs)).
      cbn [log trace]. rewrite Hts, <- app_assoc. eexists. reflexivity.
    + rewrite (minikubeStatus_absent w ws Hcs). cbn [snd]. eexists. exact Hts.
  - destruct (startMinikube_world options w wa fa Hca) as (_ & more & Ht & _).
    rewrite Ht, Hta, <- app_assoc. eexists. reflexivity.
  - destruct (stopMinikube_world w wa fa Hca) as (_ & more & Ht & _).
    rewrite Ht, Hta, <- app_assoc. eexists. reflexivity.
  - destruct (isRunnableMinikube_world w wa fa Hca) as (_ & _ & _ & Ht).
    rewrite Ht, Hta, <- app_assoc. eexists. reflexivity.
Qed.

(** X14. A call of [startMinikube] runs no command, or the status query
    alone, or the status query followed by the start command built from the
    options, all with the binary path the call ends with; it never runs the
    start command without the status query before it. Likewise
    [stopMinikube] with the stop command. Either asks the locator at most
    once. *)
Theorem start_stop_commands (options : MinikubeOptions) (w : World) :
  (let after := snd (startMinikube options w) in
   let p := binPath (context after) in
   exists ev,
     trace after = trace w ++ ev
     /\ locator_calls ev <= 1
     /\ (executed ev = []
         \/ executed ev = [statusCommand p]
         \/ executed ev = [statusCommand p; startCommand p options]))
  /\ (let after := snd (stopMinikube w) in
      let p := binPath (context after) in
      exists ev,
        trace after = trace w ++ ev
        /\ locator_calls ev <= 1
        /\ (executed ev = []
            \/ executed ev = [statusCommand p]
            \/ executed ev = [statusCommand p; stopCommand p])).
Proof.
  destruct (checkPresent_cases Alert w)
    as (f & w1 & ev0 & Hc & _ & _ & _ & Ht0 & Hev & Hn & _).
  destruct (locator_events_silent ev0 Hev) as (Ex & _ & _).
  assert (Hn1 : locator_calls ev0 <= 1) by (rewrite Hn; destruct (binFound _); lia).
  split; intros after p; subst after p.
  - destruct (startMinikube_world options w w1 f Hc) as (Hctx & more & Ht & Hm).
    rewrite Hctx. exists (ev0 ++ more).
    split; [now rewrite Ht, Ht0, app_assoc|].
    rewrite locator_calls_app, executed_app, Ex.
    destruct Hm as [(_ & ->) | (_ & tail & -> & [-> | [-> | ->]])];
      cbn [locator_calls executed app]; split; try lia; auto.
  - destruct (stopMinikube_world w w1 f Hc) as (Hctx & more & Ht & Hm).
    rewrite Hctx. exists (ev0 ++ more).
    split; [now rewrite Ht, Ht0, app_assoc|].
    rewrite locator_calls_app, executed_app, Ex.
    destruct Hm as [(_ & ->) | (_ & tail & -> & [-> | [-> | ->]])];
      cbn [locator_calls executed app]; split; try lia; auto.
Qed.

(** X15. The runnable check is rejected exactly when the binary is present
    and the shell cannot run the help command, and then with what the shell
    threw; whatever comes of it, it leaves the status-bar item and the
    pending continuations alone. *)
Theorem runnable_rejection (w : World) (e : JSError) :
  (fst (isRunnableMinikube w) = Rejected e
   <-> exists w1 err,
         checkPresent Alert w = (Resolved true, w1)
         /\ shell_exec (trace w1) (helpCommand (binPath (context w1))) = Threw err
         /\ e = Reason err)
  /\ minikubeStatusBarItem (snd (isRunnableMinikube w)) = minikubeStatusBarItem w
  /\ detached (snd (isRunnableMinikube w)) = detached w.
Proof.
  destruct (checkPresent_cases Alert w) as (f & w1 & ev0 & Hc & _ & Hi & Hd & _).
  destruct (isRunnableMinikube_world w w1 f Hc) as (_ & Hi' & Hd' & _).
  split; [|split; congruence].
  split.
  - unfold isRunnableMinikube. rewrite bind_run, Hc.
    destruct f; cbn [negb]; [|discriminate].
    unfold exec, bind, gets, emit, modify, ret, throw. cbv beta iota.
    destruct (shell_exec (trace w1) _) as [sr|err] eqn:He; [discriminate|].
    cbn [fst]. intros H. injection H as <-. now exists w1, err.
  - intros (w1' & err & Hc' & He & ->). rewrite Hc in Hc'. injection Hc' as -> <-.
    unfold isRunnableMinikube. rewrite bind_run, Hc.
    cbn [negb]. unfold exec, bind, gets, emit, modify, ret, throw. cbv beta iota.
    now rewrite He.
Qed.

(** ** What lasts over any run of calls *)

Lemma preserves_ret {A} (P : World -> Prop) (a : A) : preserves P (ret a).
Proof. intros w H. exact H. Qed.

Lemma preserves_throw {A} (P : World -> Prop) (e : JSError) : preserves P (@throw A e).
Proof. intros w H. exact H. Qed.

Lemma preserves_gets {A} (P : World -> Prop) (f : World -> A) : preserves P (gets f).
Proof. intros w H. exact H. Qed.

Lemma preserves_lift {A} (P : World -> Prop) (c : Completion A) : preserves P (lift c).
Proof. intros w H. exact H. Qed.

Lemma preserves_modify (P : World -> Prop) (f : World -> World) :
  (forall w, P w -> P (f w)) -> preserves P (modify f).
Proof. intros Hf w H. now apply Hf. Qed.

Lemma preserves_bind {A B} (P : World -> Prop) (m : M A) (k : A -> M B) :
  preserves P m -> (forall a, preserves P (k a)) -> preserves P (bind m k).
Proof.
  intros Hm Hk w H. rewrite bind_run. specialize (Hm w H).
  destruct (m w) as [[a|e] w']; cbn [snd] in *; [now apply Hk|exact Hm].
Qed.

(** Takes a computation apart; [side] settles the changes of the world,
    [check] the presence check. *)
Ltac lasting check side :=
  repeat first
    [ apply preserves_ret
    | apply preserves_throw
    | apply preserves_gets
    | apply preserves_lift
    | check
    | solve [side]
    | apply preserves_bind; [|intros ?]
    | match goal with
      | |- preserves _ (if ?b then _ else _) => destruct b
      | |- preserves _ (match ?x with _ => _ end) => destruct x
      end ].

Ltac unfold_adapter :=
  unfold isRunnableMinikube, startMinikube, stopMinikube, minikubeStatus,
    startCompleted, stopCompleted, JSON_parse, exec, exec_detached, emit,
    getStatusBar, item_text, item_show, item_hide, update_item.

Section Lasting.

Variable P : World -> Prop.
Hypothesis check_lasts : forall mode, preserves P (checkPresent mode).
Hypothesis change_lasts :
  forall w, P w ->
    (forall e, P (log e w))
    /\ (forall d, P (set_detached d w))
    /\ (forall f, P (set_item (option_map f (minikubeStatusBarItem w)) w))
    /\ (minikubeStatusBarItem w = None -> P (create_item w)).

(** A property that the presence check keeps, and that logging, attaching
    and changing or creating the status-bar item keep, lasts through every
    call. *)
Lemma perform_lasts (c : Call) (w : World) : P w -> P (perform c w).
Proof.
  assert (Hside : forall f : World -> World,
             (forall w0, (exists e, f w0 = log e w0)
                         \/ (exists d, f w0 = set_detached d w0)
                         \/ (exists g, f w0 = set_item
                                               (option_map g (minikubeStatusBarItem w0)) w0)
                         \/ (minikubeStatusBarItem w0 = None /\ f w0 = create_item w0)
                         \/ f w0 = w0) ->
             preserves P (modify f)).
  { intros f Hf. apply preserves_modify. intros w0 H0.
    destruct (change_lasts w0 H0) as (H1 & H2 & H3 & H4).
    destruct (Hf w0) as [[e ->] | [[d ->] | [[g ->] | [[Hn ->] | ->]]]]; auto. }
  intros H. destruct c; cbn [perform].
  - now apply check_lasts.
  - revert w H. change (preserves P isRunnableMinikube). unfold_adapter.
    lasting ltac:(apply check_lasts)
            ltac:(apply Hside; intros w0; eauto 6).
  - revert w H. change (preserves P (startMinikube options)). unfold_adapter.
    lasting ltac:(apply check_lasts)
            ltac:(apply Hside; intros w0;
                  try (destruct (minikubeStatusBarItem w0) eqn:?); eauto 7).
  - revert w H. change (preserves P stopMinikube). unfold_adapter.
    lasting ltac:(apply check_lasts)
            ltac:(apply Hside; intros w0;
                  try (destruct (minikubeStatusBarItem w0) eqn:?); eauto 7).
  - revert w H. change (preserves P minikubeStatus). unfold_adapter.
    lasting ltac:(apply check_lasts)
            ltac:(apply Hside; intros w0; eauto 6).
  - unfold settle. destruct (detached w) as [|[[|] outcome] rest]; [exact H| |].
    + assert (H' : P (set_detached rest w)) by now apply change_lasts.
      revert H'. generalize (set_detached rest w).
      change (preserves P (startCompleted outcome)). unfold_adapter.
      lasting ltac:(apply check_lasts) ltac:(apply Hside; intros w0; eauto 6).
    + assert (H' : P (set_detached rest w)) by now apply change_lasts.
      revert H'. generalize (set_detached rest w).
      change (preserves P (stopCompleted outcome)). unfold_adapter.
      lasting ltac:(apply check_lasts) ltac:(apply Hside; intros w0; eauto 6).
Qed.

Lemma run_lasts (calls : list Call) (w : World) : P w -> P (run calls w).
Proof.
  revert w. induction calls as [|c calls IH]; intros w H; [exact H|].
  cbn [run fold_left]. apply IH. now apply perform_lasts.
Qed.

End Lasting.

Lemma checkPresent_created (mode : CheckPresentMode) (w : World) :
  itemsCreated (snd (checkPresent mode w)) = itemsCreated w.
Proof.
  destruct (binFound (context w)) eqn:Hf.
  - now rewrite (checkPresent_found mode w Hf).
  - rewrite (checkPresent_missing mode w Hf).
    unfold checkForMinikubeInternal, checkForBinary, bind, gets, emit, modify, ret.
    cbv beta iota.
    destruct (locate_binary (trace w) _ _); [reflexivity|]. destruct mode; reflexivity.
Qed.

(** The runnable check and the status query create no item. *)
Lemma created_kept (n : nat) :
  preserves (fun w => itemsCreated w = n) isRunnableMinikube
  /\ preserves (fun w => itemsCreated w = n) minikubeStatus.
Proof.
  assert (Hcheck : forall mode,
             preserves (fun w => itemsCreated w = n) (checkPresent mode)).
  { intros mode w H. now rewrite checkPresent_created. }
  split; unfold isRunnableMinikube, minikubeStatus, JSON_parse, exec, emit;
    lasting ltac:(apply Hcheck)
            ltac:(apply preserves_modify; intros w0 H0; exact H0).
Qed.

(** X11. The status-bar item is created once and reused. Through any run of
    calls an item that exists keeps existing and [createStatusBarItem] is
    not called again; no run calls it more than once; and presence checks,
    runnable checks and status queries never call it, leave the item as it
    is and attach nothing. *)
Theorem status_item_created_once :
  (forall calls w,
     minikubeStatusBarItem w <> None ->
     minikubeStatusBarItem (run calls w) <> None
     /\ itemsCreated (run calls w) = itemsCreated w)
  /\ (forall calls w,
        itemsCreated w <= itemsCreated (run calls w) <= S (itemsCreated w))
  /\ (forall calls w,
        forallb leaves_item calls = true ->
        minikubeStatusBarItem (run calls w) = minikubeStatusBarItem w
        /\ itemsCreated (run calls w) = itemsCreated w
        /\ detached (run calls w) = detached w).
Proof.
  assert (Hitem : forall mode w0,
             minikubeStatusBarItem (snd (checkPresent mode w0))
             = minikubeStatusBarItem w0).
  { intros mode w0.
    destruct (checkPresent_cases mode w0) as (f & w1 & ev & Hc & _ & Hi & _).
    now rewrite Hc. }
  split; [|split].
  - intros calls w Hw.
    apply (run_lasts (fun w' => minikubeStatusBarItem w' <> None
                                /\ itemsCreated w' = itemsCreated w));
      [| |now split].
    + intros mode w0 [H0 H1]. now rewrite Hitem, checkPresent_created.
    + intros w0 [H0 H1]. split; [|split; [|split]].
      * intros e. now split.
      * intros d. now split.
      * intros f. split; [|exact H1]. cbn [set_item minikubeStatusBarItem].
        destruct (minikubeStatusBarItem w0); [discriminate|contradiction].
      * intros Hn. contradiction.
  - intros calls w.
    assert (H : (itemsCreated w <= itemsCreated (run calls w) <= S (itemsCreated w))
                /\ (minikubeStatusBarItem (run calls w) = None ->
                    itemsCreated (run calls w) = itemsCreated w));
      [|exact (proj1 H)].
    apply (run_lasts
             (fun w' => (itemsCreated w <= itemsCreated w' <= S (itemsCreated w))
                        /\ (minikubeStatusBarItem w' = None ->
                            itemsCreated w' = itemsCreated w)));
      [| |split; [lia|reflexivity]].
    + intros mode w0 [H0 H1]. now rewrite Hitem, checkPresent_created.
    + intros w0 [H0 H1]. split; [|split; [|split]].
      * intros e. now split.
      * intros d. now split.
      * intros f. split; [exact H0|]. cbn [set_item minikubeStatusBarItem itemsCreated].
        destruct (minikubeStatusBarItem w0); [discriminate|exact H1].
      * intros Hn. cbn [create_item minikubeStatusBarItem itemsCreated].
        rewrite (H1 Hn). split; [lia|discriminate].
  - induction calls as [|c calls IH]; intros w H; [now repeat split|].
    cbn [forallb] in H. apply andb_true_iff in H as [Hc Hcs].
    cbn [run fold_left]. fold (run calls (perform c w)).
    destruct (IH (perform c w) Hcs) as (Hi & Hn & Hd). rewrite Hi, Hn, Hd.
    destruct c; try discriminate Hc; cbn [perform].
    + destruct (checkPresent_cases mode w) as (f & w1 & ev & E & _ & Hi' & Hd' & _).
      rewrite checkPresent_created, E. now repeat split.
    + destruct (checkPresent_cases Alert w) as (f & w1 & ev & E & _ & Hi' & Hd' & _).
      destruct (isRunnableMinikube_world w w1 f E) as (_ & Hi'' & Hd'' & _).
      split; [congruence|]. split; [|congruence].
      exact (proj1 (created_kept (itemsCreated w)) w eq_refl).
    + destruct (minikubeStatus_effects w) as (ev0 & _ & _ & Hi' & Hd' & _).
      split; [exact Hi'|]. split; [|exact Hd'].
      exact (proj2 (created_kept (itemsCreated w)) w eq_refl).
Qed.

(** X12. Once the binary is found, nothing the adapter is asked to do
    changes its context: every later command is run under the same binary
    path. *)
Theorem context_fixed_once_found (calls : list Call) (w : World) :
  binFound (context w) = true ->
  context (run calls w) = context w.
Proof.
  intros Hf. apply (run_lasts (fun w' => context w' = context w)); [| |reflexivity].
  - intros mode w0 H0.
    rewrite (checkPresent_found mode w0); [exact H0|]. now rewrite H0.
  - intros w0 H0. repeat split; intros; exact H0.
Qed.

Lemma perform_context (c : Call) (w : World) :
  binFound (context w) = true -> context (perform c w) = context w.
Proof.
  intros Hf. apply (perform_lasts (fun w' => context w' = context w)); [| |reflexivity].
  - intros mode w0 H0.
    rewrite (checkPresent_found mode w0); [exact H0|]. now rewrite H0.
  - intros w0 H0. repeat split; intros; exact H0.
Qed.

Lemma perform_commands (c : Call) (w : World) :
  binFound (context w) = true ->
  exists ev,
    trace (perform c w) = trace w ++ ev
    /\ Forall (adapter_command (binPath (context w))) (executed ev).
Proof.
  intros Hf. pose proof (fun mode => checkPresent_found mode w Hf) as Hc.
  destruct c; cbn [perform].
  - rewrite Hc. exists []. cbn [snd]. rewrite app_nil_r. split; [reflexivity|constructor].
  - destruct (isRunnableMinikube_world w w true (Hc Alert)) as (_ & _ & _ & Ht).
    eexists. split; [exact Ht|]. constructor; [now left|constructor].
  - destruct (startMinikube_world options w w true (Hc Alert))
      as (_ & more & Ht & [(E & _) | (_ & tail & -> & Htail)]); [discriminate|].
    eexists. split; [exact Ht|].
    destruct Htail as [-> | [-> | ->]]; cbn [executed].
    + constructor; [right; now left|constructor].
    + constructor; [right; now left|constructor].
    + constructor; [right; now left|]. constructor; [|constructor].
      right. right. right. now exists options.
  - destruct (stopMinikube_world w w true (Hc Alert))
      as (_ & more & Ht & [(E & _) | (_ & tail & -> & Htail)]); [discriminate|].
    eexists. split; [exact Ht|].
    destruct Htail as [-> | [-> | ->]]; cbn [executed].
    + constructor; [right; now left|constructor].
    + constructor; [right; now left|constructor].
    + constructor; [right; now left|]. constructor; [|constructor].
      right. right. now left.
  - rewrite (minikubeStatus_world w Hf). eexists. split; [reflexivity|].
    constructor; [right; now left|constructor].
  - unfold settle. destruct (detached w) as [|[[|] [result|err]] rest].
    + exists []. rewrite app_nil_r. split; [reflexivity|constructor].
    + cbn [startCompleted]. destruct (code result =? 0)%Z;
        eexists [_]; split; try reflexivity; constructor.
    + eexists [_]. split; [reflexivity|constructor].
    + cbn [stopCompleted]. destruct (code result =? 0)%Z;
        eexists [_]; split; try reflexivity; constructor.
    + eexists [_]. split; [reflexivity|constructor].
Qed.

(** X16. Once the binary is found, the only commands that any run of calls
    executes are the help, status, stop and start commands of that one
    binary path. *)
Theorem only_adapter_commands (calls : list Call) (w : World) :
  binFound (context w) = true ->
  exists ev,
    trace (run calls w) = trace w ++ ev
    /\ Forall (adapter_command (binPath (context w))) (executed ev).
Proof.
  revert w. induction calls as [|c calls IH]; intros w Hf.
  - exists []. cbn [run fold_left]. rewrite app_nil_r. split; [reflexivity|constructor].
  - cbn [run fold_left]. fold (run calls (perform c w)).
    destruct (perform_commands c w Hf) as (ev1 & Ht1 & Hev1).
    pose proof (perform_context c w Hf) as Hctx.
    destruct (IH (perform c w)) as (ev2 & Ht2 & Hev2); [now rewrite Hctx|].
    exists (ev1 ++ ev2). split; [now rewrite Ht2, Ht1, app_assoc|].
    rewrite executed_app. apply Forall_app. split; [exact Hev1|].
    now rewrite Hctx in Hev2.
Qed.

End Adapter.

(** ** The theorems at work

    Each theorem above applied to a concrete shell, configuration and
    locator, and the inputs on which the code departs from what one might
    expect of it. *)

(** The status test of the specification: the output
    [["Running","Running","Configured"]] with nothing on the error output. *)
Lemma status_running_example :
  let shell := shell_says (said 0 (status_line (js "Running") (js "Running")
                                               (js "Configured")) (js "")) in
  let status := minikubeStatus shell nothing_configured on_path create in
  (exists info w', status = (Resolved info, w'))
  /\ forall info w',
       status = (Resolved info, w') ->
       (running info = true <-> js "Running" <> js "Stopped")
       /\ (running info = false <-> js "Running" = js "Stopped")
       /\ cluster info = JSString (js "Running")
       /\ kubectl info = JSString (js "Configured").
Proof.
  intros shell status.
  destruct (status_running_iff_not_stopped shell nothing_configured on_path
              create (snd (checkPresent nothing_configured on_path Silent create))
              (said 0 (status_line (js "Running") (js "Running") (js "Configured"))
                    (js ""))
              (js "Running") (js "Running") (js "Configured")
              eq_refl eq_refl eq_refl) as [Hreturns Hstatus].
  split; [exact (Hreturns eq_refl) | exact Hstatus].
Defined.

(** A good status line and exit code 0 do not help when the command also
    wrote to its error output. *)
Lemma status_stderr_example :
  let result := said 0 (status_line (js "Running") (js "Running") (js "Configured"))
                     (js "W0101 deprecated") in
  fst (minikubeStatus (shell_says result) nothing_configured on_path confirmed)
  = Rejected (Error (js "failed to get status: W0101 deprecated")).
Proof.
  intros result.
  destruct (status_success_criterion (shell_says result) nothing_configured on_path
              confirmed confirmed result eq_refl eq_refl) as [Hfails _].
  rewrite Hfails; [reflexivity | discriminate].
Defined.

(** C2 does not hold as stated: a command that prints nothing at all has an
    empty error output, and [minikubeStatus] throws on it. *)
Lemma status_fails_with_empty_stderr :
  let result := said 0 (js "") (js "") in
  let status := minikubeStatus (shell_says result) nothing_configured on_path create in
  stderr result = []
  /\ fst status = Rejected SyntaxError
  /\ ~ exists info w', status = (Resolved info, w').
Proof.
  intros result status. split; [reflexivity|]. split; [reflexivity|].
  intros (info & w' & H).
  assert (E : fst status = Resolved info) by now rewrite H.
  discriminate E.
Qed.

(** An empty object is no array of three strings, and a status comes back. *)
Lemma status_of_object_example :
  let result := said 0 (js "{}") (js "") in
  fst (minikubeStatus (shell_says result) nothing_configured on_path confirmed)
  = Resolved {| running := true; cluster := JSUndefined; kubectl := JSUndefined |}.
Proof.
  intros result.
  destruct (status_of_unexpected_stdout (shell_says result) nothing_configured
              on_path confirmed confirmed result eq_refl eq_refl eq_refl)
    as (_ & _ & Hvalue).
  destruct (Hvalue (JSObject []) eq_refl) as (o0 & o1 & o2 & H0 & H1 & H2 & Hs);
    [discriminate|].
  rewrite Hs. cbn [fst].
  injection H0 as <-. injection H1 as <-. injection H2 as <-. reflexivity.
Defined.

(** C3 does not hold as stated: an array of one string has the wrong length,
    the error output is empty, and [minikubeStatus] returns a status. *)
Lemma status_accepts_short_array :
  let out := js "[" ++ quoted (js "Running") ++ js "]" in
  let status :=
    minikubeStatus (shell_says (said 0 out (js ""))) nothing_configured on_path create in
  JSON.parse out = Some (JSArray [JSString (js "Running")])
  /\ is_three_strings (JSArray [JSString (js "Running")]) = false
  /\ fst status
     = Resolved {| running := true; cluster := JSUndefined; kubectl := JSUndefined |}.
Proof. intros out status. repeat split. Qed.

(** C4 does not hold as stated: with the flags ["--foo"] and an empty driver
    there is one blank before [start], not two. *)
Lemma start_arguments_one_blank :
  let options := {| vmDriver := Str (js ""); additionalFlags := Str (js "--foo") |} in
  startArguments options = js "--foo start"
  /\ startArguments options <> js "--foo  start"
  /\ startCommand (js "minikube") options = js "minikube --foo start".
Proof. intros options. repeat split. discriminate. Qed.

(** Starting a cluster that runs. *)
Lemma start_when_running_example :
  let shell := shell_says (said 0 (status_line (js "Running") (js "Running")
                                               (js "Configured")) (js "")) in
  let options := {| vmDriver := Str (js "hyperkit"); additionalFlags := Undefined |} in
  exists w' ev,
    startMinikube shell nothing_configured on_path options create = (Resolved tt, w')
    /\ trace w' = trace create ++ ev
    /\ executed ev = [statusCommand (js "minikube")]
    /\ (forall path opts, ~ In (startCommand path opts) (executed ev))
    /\ warnings_shown ev = [js "Minikube cluster is already started."]
    /\ errors_shown ev = []
    /\ minikubeStatusBarItem w'
       = Some {| text := js "minikube-starting"; visible := true |}
    /\ detached w' = detached create.
Proof.
  intros shell options.
  exact (start_when_running_only_warns shell nothing_configured on_path options
           create
           (snd (checkPresent nothing_configured on_path Alert create))
           (snd (minikubeStatus shell nothing_configured on_path
                   (indicating (js "minikube-starting")
                      (snd (checkPresent nothing_configured on_path Alert create)))))
           {| running := true;
              cluster := JSString (js "Running");
              kubectl := JSString (js "Configured") |}
           eq_refl eq_refl eq_refl).
Defined.

(** Stopping a cluster that is stopped. *)
Lemma stop_when_stopped_example :
  let shell := shell_says (said 0 (status_line (js "Stopped") (js "") (js "")) (js "")) in
  exists w' ev,
    stopMinikube shell nothing_configured on_path create = (Resolved tt, w')
    /\ trace w' = trace create ++ ev
    /\ executed ev = [statusCommand (js "minikube")]
    /\ (forall path, ~ In (stopCommand path) (executed ev))
    /\ warnings_shown ev = [js "Minikube cluster is already stopped."]
    /\ errors_shown ev = []
    /\ detached w' = detached create.
Proof.
  intros shell.
  exact (stop_when_stopped_only_warns shell nothing_configured on_path create
           (snd (checkPresent nothing_configured on_path Alert create))
           (snd (minikubeStatus shell nothing_configured on_path
                   (indicating (js "minikube-stopping")
                      (snd (checkPresent nothing_configured on_path Alert create)))))
           {| running := false;
              cluster := JSString (js "");
              kubectl := JSString (js "") |}
           eq_refl eq_refl eq_refl).
Defined.

(** An adapter that has found its binary, put through all its operations
    while the locator would no longer find anything: the flag stays and
    the locator is not asked. *)
Lemma presence_cache_example :
  let shell := shell_says (said 1 (js "") (js "not running")) in
  let after :=
    run shell nothing_configured nowhere unit (fun _ => tt) (fun sr => [stderr sr])
      [CallStatus; CallStart {| vmDriver := Undefined; additionalFlags := Undefined |};
       CallStop; CallIsRunnable; Settle; CallCheckPresent Alert] confirmed in
  checkPresent nothing_configured nowhere Silent confirmed = (Resolved true, confirmed)
  /\ binFound (context after) = true
  /\ locator_calls (trace after) = 0.
Proof.
  intros shell after.
  destruct (presence_cached_one_way shell nothing_configured nowhere unit
              (fun _ => tt) (fun sr => [stderr sr])) as (Hhit & Hkept & _).
  split; [exact (Hhit Silent confirmed eq_refl)|].
  exact (Hkept _ confirmed eq_refl).
Defined.

(** A shell on which only [minikube help] succeeds: without the binary
    nothing is run; with it that command is run and exit code 0 is success;
    and where the same command exits with 64, the answer is failure. *)
Lemma runnable_check_example :
  let shell := shell_expects (js "minikube help") (said 0 (js "usage") (js ""))
                             (said 127 (js "") (js "command not found")) in
  let refusing := shell_expects (js "minikube help") (said 64 (js "usage") (js ""))
                                (said 0 (js "") (js "")) in
  let runnable locate sh :=
    isRunnableMinikube sh nothing_configured locate unit (fun _ => tt)
      (fun sr => [stderr sr]) create in
  (fst (runnable nowhere shell) = Resolved (Failed [js "Minikube is not installed"])
   /\ executed (trace (snd (runnable nowhere shell))) = [])
  /\ (fst (runnable on_path shell) = Resolved (Succeeded tt)
      /\ executed (trace (snd (runnable on_path shell))) = [js "minikube help"])
  /\ fst (runnable on_path refusing) = Resolved (Failed [js ""]).
Proof.
  intros shell refusing runnable. subst runnable. cbv beta.
  split; [|split].
  - destruct (runnable_check shell nothing_configured nowhere unit (fun _ => tt)
                (fun sr => [stderr sr]) create
                (snd (checkPresent nothing_configured nowhere Alert create)))
      as [Habsent _].
    destruct (Habsent eq_refl) as [E _]. rewrite E. split; reflexivity.
  - destruct (runnable_check shell nothing_configured on_path unit (fun _ => tt)
                (fun sr => [stderr sr]) create
                (snd (checkPresent nothing_configured on_path Alert create)))
      as [_ Hpresent].
    destruct (Hpresent eq_refl (said 0 (js "usage") (js "")) eq_refl) as [E _].
    rewrite E. split; reflexivity.
  - destruct (runnable_check refusing nothing_configured on_path unit (fun _ => tt)
                (fun sr => [stderr sr]) create
                (snd (checkPresent nothing_configured on_path Alert create)))
      as [_ Hpresent].
    destruct (Hpresent eq_refl (said 64 (js "usage") (js "")) eq_refl) as [E _].
    now rewrite E.
Defined.

(** C9 does not hold as stated: when the status query of the precheck writes
    to its error output, the promise of [startMinikube] is rejected with the
    error of the status query, and so is that of [stopMinikube]. *)
Lemma start_rejects_when_precheck_fails :
  let shell := shell_says (said 1 (js "") (js "machine does not exist")) in
  let options := {| vmDriver := Undefined; additionalFlags := Undefined |} in
  fst (startMinikube shell nothing_configured on_path options create)
  = Rejected (Error (js "failed to get status: machine does not exist"))
  /\ fst (stopMinikube shell nothing_configured on_path create)
     = Rejected (Error (js "failed to get status: machine does not exist")).
Proof. intros shell options. split; reflexivity. Qed.

(** A shell that cannot run anything: the precheck's [await] throws, and the
    promise of [stopMinikube] is rejected with it. *)
Lemma stop_rejection_example :
  fst (stopMinikube (shell_breaks (js "spawn ENOENT")) nothing_configured on_path create)
  = Rejected (Reason (js "spawn ENOENT")).
Proof.
  apply (start_stop_rejection (shell_breaks (js "spawn ENOENT")) nothing_configured
           on_path {| vmDriver := Undefined; additionalFlags := Undefined |} create).
  exists (snd (checkPresent nothing_configured on_path Alert create)).
  split; reflexivity.
Defined.

(** No flags and no driver: the command is [minikube  start]. *)
Lemma start_without_flags_example :
  let shell := shell_says (said 0 (status_line (js "Stopped") (js "") (js "")) (js "")) in
  let options := {| vmDriver := Null; additionalFlags := Undefined |} in
  startCommand (js "minikube") options = js "minikube  start"
  /\ exists w',
       startMinikube shell nothing_configured on_path options create = (Resolved tt, w')
       /\ executed (trace w') = [statusCommand (js "minikube"); js "minikube  start"].
Proof.
  intros shell options.
  destruct (start_without_flags shell nothing_configured on_path options
              (or_introl eq_refl)) as [_ Hdriver].
  destruct (Hdriver (or_intror (or_introl eq_refl))) as (_ & Hcommand & Hlaunch).
  split; [exact (Hcommand (js "minikube"))|].
  destruct (Hlaunch create
              (snd (checkPresent nothing_configured on_path Alert create))
              (snd (minikubeStatus shell nothing_configured on_path
                      (indicating (js "minikube-starting")
                         (snd (checkPresent nothing_configured on_path Alert create)))))
              {| running := false;
                 cluster := JSString (js "");
                 kubectl := JSString (js "") |}
              eq_refl eq_refl eq_refl) as (w' & Hstart & Htrace).
  exists w'. split; [exact Hstart|]. now rewrite Htrace.
Defined.

(** ** The adapter at work *)

Example parse_status_line :
  JSON.parse (status_line (js "Running") (js "Running") (js "Configured"))
  = Some (JSArray [JSString (js "Running"); JSString (js "Running");
                   JSString (js "Configured")]).
Proof. reflexivity. Qed.

Example parse_escapes :
  JSON.parse (js " [ " ++ quoted (js "aA\n") ++ js " , -1.5e3, null ] ")
  = Some (JSArray [JSString [97; 65; 10]%N; JSNumber (js "-1.5e3"); JSNull]).
Proof. reflexivity. Qed.

Example parse_rejects :
  JSON.parse (js "") = None
  /\ JSON.parse (js "Running") = None
  /\ JSON.parse (js "[1,]") = None
  /\ JSON.parse (js "01") = None
  /\ JSON.parse (js "{} {}") = None.
Proof. repeat split. Qed.

Example index_of_object :
  JSON.parse (js "{" ++ quoted (js "0") ++ js ":" ++ quoted (js "Stopped") ++ js "}")
  = Some (JSObject [(js "0", JSString (js "Stopped"))])
  /\ index (JSObject [(js "0", JSString (js "Stopped"))]) 0
     = Resolved (JSString (js "Stopped"))
  /\ index (JSObject [(js "0", JSString (js "Stopped"))]) 1 = Resolved JSUndefined.
Proof. repeat split. Qed.

(** A stopped cluster is started: the command is launched, the promise
    resolves, and the message comes when the command has finished. *)
Example start_then_settle :
  let shell := shell_answers (said 0 (status_line (js "Stopped") (js "") (js "")) (js ""))
                             (said 0 (js "Done!") (js "")) in
  let options := {| vmDriver := Str (js "hyperkit"); additionalFlags := Str (js "-v 3") |} in
  let started := startMinikube shell nothing_configured on_path options create in
  fst started = Resolved tt
  /\ executed (trace (snd started))
     = [statusCommand (js "minikube");
        js "minikube -v 3 --vm-driver=hyperkit  start"]
  /\ minikubeStatusBarItem (snd started)
     = Some {| text := js "minikube-starting"; visible := true |}
  /\ trace (settle (snd started))
     = trace (snd started) ++ [ShowInformationMessage (js "Cluster started.")]
  /\ minikubeStatusBarItem (settle (snd started))
     = Some {| text := js "minikube-running"; visible := true |}
  /\ detached (settle (snd started)) = [].
Proof. repeat split. Qed.

(** The start command fails: the promise has resolved all the same, and the
    failure shows in the error message and the hidden item only. *)
Example start_failure_shows_in_ui :
  let shell := shell_answers (said 0 (status_line (js "Stopped") (js "") (js "")) (js ""))
                             (said 70 (js "") (js "no space left")) in
  let options := {| vmDriver := Undefined; additionalFlags := Undefined |} in
  let started := startMinikube shell nothing_configured on_path options create in
  fst started = Resolved tt
  /\ errors_shown (trace (snd started)) = []
  /\ errors_shown (trace (settle (snd started)))
     = [js "Failed to start cluster no space left"]
  /\ minikubeStatusBarItem (settle (snd started))
     = Some {| text := js "minikube-starting"; visible := false |}.
Proof. repeat split. Qed.

(** The locator finds nothing, then the binary: two calls ask it, the third
    does not. *)
Example presence_is_rechecked_until_found :
  let w1 := snd (checkPresent nothing_configured nowhere Alert create) in
  let w2 := snd (checkPresent nothing_configured on_path Silent w1) in
  let w3 := snd (checkPresent nothing_configured nowhere Alert w2) in
  binFound (context w1) = false
  /\ trace w1 = [Locate Undefined (js "minikube") true;
                 AlertUser (js "Could not find " ++ quoted (js "minikube")
                              ++ js " binary.")]
  /\ binFound (context w2) = true
  /\ locator_calls (trace w2) = 2
  /\ w3 = w2.
Proof. repeat split. Qed.

(** ** More of the adapter at work *)

(** A status query on a machine without [minikube]. *)
Lemma status_without_binary_example :
  let shell := shell_says (said 0 (js "") (js "")) in
  let status := minikubeStatus shell nothing_configured nowhere create in
  fst status = Rejected (Error (js "minikube executable could not be found!"))
  /\ executed (trace (snd status)) = []
  /\ trace (snd status) = [Locate Undefined (js "minikube") false].
Proof.
  intros shell status. subst status.
  destruct (status_without_binary shell nothing_configured nowhere create
              (snd (checkPresent nothing_configured nowhere Silent create)) eq_refl)
    as [E _].
  rewrite E. repeat split.
Defined.

(** A shell that cannot spawn the binary. *)
Lemma status_exec_failure_example :
  minikubeStatus (shell_breaks (js "spawn ENOENT")) nothing_configured on_path confirmed
  = (Rejected (Reason (js "spawn ENOENT")),
     log (Exec (statusCommand (js "minikube"))) confirmed).
Proof.
  exact (status_exec_failure (shell_breaks (js "spawn ENOENT")) nothing_configured
           on_path confirmed confirmed (js "spawn ENOENT") eq_refl eq_refl).
Defined.

(** The status of a one-element array that says ["Stopped"]: not running,
    and the array is of the shape the theorem names. *)
Lemma status_stopped_shape_example :
  let out := js "[" ++ quoted (js "Stopped") ++ js "]" in
  let shell := shell_says (said 0 out (js "")) in
  fst (minikubeStatus shell nothing_configured on_path confirmed)
  = Resolved {| running := false; cluster := JSUndefined; kubectl := JSUndefined |}
  /\ ((exists rest,
         JSArray [JSString (js "Stopped")] = JSArray (JSString (js "Stopped") :: rest))
      \/ (exists ms,
            JSArray [JSString (js "Stopped")] = JSObject ms
            /\ lookup_member (js "0") ms = JSString (js "Stopped"))).
Proof.
  intros out shell. split; [reflexivity|].
  apply (status_stopped_shape shell nothing_configured on_path confirmed confirmed
           (snd (minikubeStatus shell nothing_configured on_path confirmed))
           (said 0 out (js "")) (JSArray [JSString (js "Stopped")])
           {| running := false; cluster := JSUndefined; kubectl := JSUndefined |}
           eq_refl eq_refl eq_refl eq_refl).
  reflexivity.
Defined.

(** Starting a stopped cluster with a driver. *)
Lemma start_launches_example :
  let stopped := said 0 (status_line (js "Stopped") (js "") (js "")) (js "") in
  let shell := shell_answers stopped (said 0 (js "Done!") (js "")) in
  let options := {| vmDriver := Str (js "hyperkit"); additionalFlags := Null |} in
  exists w' ev,
    startMinikube shell nothing_configured on_path options create = (Resolved tt, w')
    /\ trace w' = trace create ++ ev
    /\ executed ev = [statusCommand (js "minikube");
                      js "minikube  --vm-driver=hyperkit  start"]
    /\ infos_shown ev = []
    /\ warnings_shown ev = []
    /\ errors_shown ev = []
    /\ minikubeStatusBarItem w'
       = Some {| text := js "minikube-starting"; visible := true |}
    /\ detached w'
       = detached create ++ [(StartCompletion, Exited (said 0 (js "Done!") (js "")))].
Proof.
  intros stopped shell options.
  exact (start_launches shell nothing_configured on_path options create
           (snd (checkPresent nothing_configured on_path Alert create))
           (snd (minikubeStatus shell nothing_configured on_path
                   (indicating (js "minikube-starting")
                      (snd (checkPresent nothing_configured on_path Alert create)))))
           {| running := false;
              cluster := JSString (js "");
              kubectl := JSString (js "") |}
           eq_refl eq_refl eq_refl).
Defined.

(** Stopping a running cluster. *)
Lemma stop_launches_example :
  let running_ :=
    said 0 (status_line (js "Running") (js "Running") (js "Configured")) (js "") in
  let shell := shell_answers running_ (said 0 (js "") (js "")) in
  exists w' ev,
    stopMinikube shell nothing_configured on_path create = (Resolved tt, w')
    /\ trace w' = trace create ++ ev
    /\ executed ev = [statusCommand (js "minikube"); js "minikube stop"]
    /\ infos_shown ev = []
    /\ warnings_shown ev = []
    /\ errors_shown ev = []
    /\ minikubeStatusBarItem w'
       = Some {| text := js "minikube-stopping"; visible := true |}
    /\ detached w'
       = detached create ++ [(StopCompletion, Exited (said 0 (js "") (js "")))].
Proof.
  intros running_ shell.
  exact (stop_launches shell nothing_configured on_path create
           (snd (checkPresent nothing_configured on_path Alert create))
           (snd (minikubeStatus shell nothing_configured on_path
                   (indicating (js "minikube-stopping")
                      (snd (checkPresent nothing_configured on_path Alert create)))))
           {| running := true;
              cluster := JSString (js "Running");
              kubectl := JSString (js "Configured") |}
           eq_refl eq_refl eq_refl).
Defined.

(** A start command that exits with 70. *)
Lemma start_then_finishes_example :
  let stopped := said 0 (status_line (js "Stopped") (js "") (js "")) (js "") in
  let shell := shell_answers stopped (said 70 (js "") (js "no space left")) in
  let options := {| vmDriver := Undefined; additionalFlags := Str (js "-v 3") |} in
  let launched := snd (startMinikube shell nothing_configured on_path options create) in
  detached (settle launched) = []
  /\ trace (settle launched)
     = trace launched ++ [ShowErrorMessage (js "Failed to start cluster no space left")]
  /\ minikubeStatusBarItem (settle launched)
     = Some {| text := js "minikube-starting"; visible := false |}.
Proof.
  intros stopped shell options launched.
  exact (start_then_finishes shell nothing_configured on_path options create
           (snd (checkPresent nothing_configured on_path Alert create))
           (snd (minikubeStatus shell nothing_configured on_path
                   (indicating (js "minikube-starting")
                      (snd (checkPresent nothing_configured on_path Alert create)))))
           {| running := false;
              cluster := JSString (js "");
              kubectl := JSString (js "") |}
           eq_refl eq_refl eq_refl eq_refl).
Defined.

(** A stop command that exits with 0. *)
Lemma stop_then_finishes_example :
  let running_ :=
    said 0 (status_line (js "Running") (js "Running") (js "Configured")) (js "") in
  let shell := shell_answers running_ (said 0 (js "") (js "")) in
  let launched := snd (stopMinikube shell nothing_configured on_path create) in
  detached (settle launched) = []
  /\ minikubeStatusBarItem (settle launched)
     = Some {| text := js "minikube-stopping"; visible := false |}
  /\ trace (settle launched)
     = trace launched ++ [ShowInformationMessage (js "Cluster stopped.")].
Proof.
  intros running_ shell launched.
  exact (stop_then_finishes shell nothing_configured on_path create
           (snd (checkPresent nothing_configured on_path Alert create))
           (snd (minikubeStatus shell nothing_configured on_path
                   (indicating (js "minikube-stopping")
                      (snd (checkPresent nothing_configured on_path Alert create)))))
           {| running := true;
              cluster := JSString (js "Running");
              kubectl := JSString (js "Configured") |}
           eq_refl eq_refl eq_refl eq_refl).
Defined.

(** The status query fails during a start: the item keeps saying that the
    cluster is starting. *)
Lemma precheck_failure_example :
  let shell := shell_says (said 1 (js "") (js "machine does not exist")) in
  let options := {| vmDriver := Undefined; additionalFlags := Undefined |} in
  let started := startMinikube shell nothing_configured on_path options create in
  fst started = Rejected (Error (js "failed to get status: machine does not exist"))
  /\ minikubeStatusBarItem (snd started)
     = Some {| text := js "minikube-starting"; visible := true |}.
Proof.
  intros shell options started. subst started.
  destruct (precheck_failure_leaves_indicator shell nothing_configured on_path
              options create
              (snd (checkPresent nothing_configured on_path Alert create)) eq_refl)
    as [Hstart _].
  destruct (Hstart (Error (js "failed to get status: machine does not exist"))
              (snd (minikubeStatus shell nothing_configured on_path
                      (indicating (js "minikube-starting")
                         (snd (checkPresent nothing_configured on_path Alert create)))))
              eq_refl) as (E & Hi & _).
  rewrite E. split; [reflexivity|exact Hi].
Defined.

(** Start and stop on a machine without [minikube]. *)
Lemma start_stop_without_binary_example :
  let shell := shell_says (said 0 (js "") (js "")) in
  let options := {| vmDriver := Str (js "kvm2"); additionalFlags := Undefined |} in
  startMinikube shell nothing_configured nowhere options create
  = stopMinikube shell nothing_configured nowhere create
  /\ fst (startMinikube shell nothing_configured nowhere options create) = Resolved tt
  /\ minikubeStatusBarItem
       (snd (startMinikube shell nothing_configured nowhere options create)) = None.
Proof.
  intros shell options.
  destruct (start_stop_without_binary shell nothing_configured nowhere options create
              (snd (checkPresent nothing_configured nowhere Alert create)) eq_refl)
    as (E1 & E2 & Hi & _).
  rewrite E1, E2. split; [reflexivity|]. split; [reflexivity|exact Hi].
Defined.

(** A fresh adapter asks the locator, and how. *)
Lemma locator_asked_example :
  let shell := shell_says (said 0 (js "") (js "")) in
  let options := {| vmDriver := Undefined; additionalFlags := Undefined |} in
  (exists rest,
     trace (snd (minikubeStatus shell nothing_configured nowhere create))
     = Locate Undefined (js "minikube") false :: rest)
  /\ (exists rest,
        trace (snd (startMinikube shell nothing_configured nowhere options create))
        = Locate Undefined (js "minikube") true :: rest).
Proof.
  intros shell options.
  destruct (locator_asked_as_caller_wants shell nothing_configured nowhere unit
              (fun _ => tt) (fun sr => [stderr sr]) options create eq_refl)
    as (Hstatus & Hstart & _).
  split; [exact Hstatus|exact Hstart].
Defined.

(** A start, its completion and a stop, for an adapter with its binary. *)
Lemma context_fixed_example :
  let stopped := said 0 (status_line (js "Stopped") (js "") (js "")) (js "") in
  let shell := shell_answers stopped (said 0 (js "") (js "")) in
  let options := {| vmDriver := Undefined; additionalFlags := Undefined |} in
  context (run shell nothing_configured nowhere unit (fun _ => tt)
             (fun sr => [stderr sr])
             [CallStart options; Settle; CallStop; CallIsRunnable] confirmed)
  = {| binFound := true; binPath := js "minikube" |}.
Proof.
  intros stopped shell options.
  exact (context_fixed_once_found shell nothing_configured nowhere unit
           (fun _ => tt) (fun sr => [stderr sr])
           [CallStart options; Settle; CallStop; CallIsRunnable] confirmed eq_refl).
Defined.

Lemma only_adapter_commands_example :
  let stopped := said 0 (status_line (js "Stopped") (js "") (js "")) (js "") in
  let shell := shell_answers stopped (said 0 (js "") (js "")) in
  let options := {| vmDriver := Str (js "kvm2"); additionalFlags := Undefined |} in
  exists ev,
    trace (run shell nothing_configured nowhere unit (fun _ => tt)
             (fun sr => [stderr sr])
             [CallStart options; Settle; CallStop; CallIsRunnable] confirmed)
    = trace confirmed ++ ev
    /\ Forall (adapter_command (js "minikube")) (executed ev).
Proof.
  intros stopped shell options.
  exact (only_adapter_commands shell nothing_configured nowhere unit
           (fun _ => tt) (fun sr => [stderr sr])
           [CallStart options; Settle; CallStop; CallIsRunnable] confirmed eq_refl).
Defined.

(** The item that a first start created serves every later call. *)
Lemma status_item_created_once_example :
  let stopped := said 0 (status_line (js "Stopped") (js "") (js "")) (js "") in
  let shell := shell_answers stopped (said 0 (js "") (js "")) in
  let options := {| vmDriver := Undefined; additionalFlags := Undefined |} in
  let started := snd (startMinikube shell nothing_configured on_path options create) in
  let later :=
    run shell nothing_configured on_path unit (fun _ => tt) (fun sr => [stderr sr])
      [Settle; CallStop; CallStart options; Settle; CallStatus; CallStop] started in
  itemsCreated create = 0
  /\ minikubeStatusBarItem later <> None
  /\ itemsCreated later = 1.
Proof.
  intros stopped shell options started later. split; [reflexivity|].
  apply (proj1 (status_item_created_once shell nothing_configured on_path unit
                  (fun _ => tt) (fun sr => [stderr sr]))).
  discriminate.
Defined.
